(** * Synchronized room playback: a shallow embedding

    The development follows three source units of the application:

    - [src/services/roomPlaybackService.ts] (module [RoomPlayback]): the
      command issuer, the subscription callback and the heartbeat;
    - the room-sync effect of [MusicPlayerProvider] (module [MusicPlayer]):
      the per-client reconciler;
    - [src/services/roomQueueService.ts] (module [RoomQueue]): the ordered
      room queue.

    JavaScript numbers are modelled by exact rationals ([Q]); every formula
    below is the source expression itself, so rounding would affect both sides
    of an equation in the same way.  The realtime database is modelled as a
    finite map from reference paths to nodes, a node being a finite map from
    child keys to values.  Each asynchronous call of a service is modelled as
    running to completion without other writes landing in between, and
    each delivery to the provider as followed by the render it causes, in
    which the updater functions handed to state setters run. *)

From Stdlib Require Import QArith Qabs Lqa ZArith Lia.
From Stdlib Require Import OrderedTypeEx.
From stdpp Require Import base option list gmap strings pretty sorting.

Local Open Scope string_scope.
Local Open Scope list_scope.

(** ** JavaScript values *)

Module Js.

#[warnings="-register-all"]
Inductive JsVal : Type :=
| JUndefined
| JNull
| JBool (b : bool)
| JNum (q : Q)
| JStr (s : string)
| JObj (props : list (string * JsVal)).

(** [typeof v === 'number'] and [typeof v === 'string']. *)
Definition typeof_number (v : JsVal) : bool :=
  match v with JNum _ => true | _ => false end.

Definition typeof_string (v : JsVal) : bool :=
  match v with JStr _ => true | _ => false end.

(** Truthiness, as used by [if (v)], [!v] and [a && b]. *)
Definition truthy (v : JsVal) : bool :=
  match v with
  | JUndefined | JNull => false
  | JBool b => b
  | JNum q => negb (Qeq_bool q 0)
  | JStr s => negb (String.eqb s "")
  | JObj _ => true
  end.

(** [v == null], the test behind [??] and [?.]. *)
Definition nullish (v : JsVal) : bool :=
  match v with JUndefined | JNull => true | _ => false end.

(** [a === b].  Objects compare by reference; every object met below comes
    out of a fresh snapshot, so two of them are never the same reference. *)
Definition strict_eq (a b : JsVal) : bool :=
  match a, b with
  | JUndefined, JUndefined => true
  | JNull, JNull => true
  | JBool x, JBool y => Bool.eqb x y
  | JNum x, JNum y => Qeq_bool x y
  | JStr x, JStr y => String.eqb x y
  | _, _ => false
  end.

Fixpoint assoc (k : string) (props : list (string * JsVal)) : JsVal :=
  match props with
  | [] => JUndefined
  | (k', v) :: rest => if String.eqb k k' then v else assoc k rest
  end.

(** [v.k] on a value that is not nullish: primitives have no own data
    properties of these names. *)
Definition prop (v : JsVal) (k : string) : JsVal :=
  match v with
  | JObj props => assoc k props
  | _ => JUndefined
  end.

(** Outcome of a call: a normal return or a thrown error. *)
Inductive Completion (A : Type) : Type :=
| Returned (a : A)
| Thrown (msg : string).
Arguments Returned {A} a.
Arguments Thrown {A} msg.

End Js.
Import Js.

(** ** The realtime database *)

Module Firebase.

(** An object literal handed to [set] or [update]; a [serverTimestamp()]
    placeholder appears here already replaced by the server's clock value. *)
Definition Payload : Type := list (string * JsVal).

Inductive Write : Type :=
| WSet (path : string) (p : Payload)
| WUpdate (path : string) (p : Payload).

Record Database : Type := mkDatabase {
  nodes : gmap string (gmap string JsVal);
  writes : list Write
}.

(** A child written as [null] is removed; any other value replaces it. *)
Definition merge_child (n : gmap string JsVal) (kv : string * JsVal)
  : gmap string JsVal :=
  if nullish kv.2 then delete kv.1 n else <[kv.1 := kv.2]> n.

Definition merge (p : Payload) (n : gmap string JsVal) : gmap string JsVal :=
  foldl merge_child n p.

(** A node without children does not exist. *)
Definition put (path : string) (n : gmap string JsVal)
    (m : gmap string (gmap string JsVal)) : gmap string (gmap string JsVal) :=
  if decide (n = ∅) then delete path m else <[path := n]> m.

(** [(await get(ref)).val()]: [None] stands for [null]. *)
Definition get (path : string) (d : Database) : option (gmap string JsVal) :=
  nodes d !! path.

Definition set (path : string) (p : Payload) (d : Database) : Database :=
  {| nodes := put path (merge p ∅) (nodes d);
     writes := writes d ++ [WSet path p] |}.

Definition update (path : string) (p : Payload) (d : Database) : Database :=
  {| nodes := put path (merge p (default ∅ (nodes d !! path))) (nodes d);
     writes := writes d ++ [WUpdate path p] |}.

(** [remove(ref)], also what an external deletion of the room does. *)
Definition remove (path : string) (d : Database) : Database :=
  {| nodes := delete path (nodes d); writes := writes d |}.

(** [raw.k] on a snapshot value. *)
Definition field (n : gmap string JsVal) (k : string) : JsVal :=
  default JUndefined (n !! k).

End Firebase.

(** ** roomPlaybackService.ts *)

Module RoomPlayback.
Import Firebase.

Record Service : Type := mkService {
  lastUserOpId : option string;
  (* seekThrottle: true while a timer handle is held, false for null *)
  seekThrottle : bool;
  serverTimeOffsetMs : Q
}.

(** What the environment supplies to one call. *)
Record Env : Type := mkEnv {
  dateNow : Z;          (* Date.now() *)
  randomSuffix : string; (* Math.random().toString(36).slice(2, 8) *)
  serverTs : Q          (* the value the server writes for serverTimestamp() *)
}.

Record SongMeta : Type := mkSongMeta {
  title : string;
  artist : string;
  thumbnail : string
}.

Definition metaObj (m : SongMeta) : JsVal :=
  JObj [("title", JStr (title m)); ("artist", JStr (artist m));
        ("thumbnail", JStr (thumbnail m))].

Definition playbackRef (roomId : string) : string :=
  "rooms/" +:+ roomId +:+ "/playback".

(** The listener on [.info/serverTimeOffset]:
    [typeof v === 'number' ? v : 0]. *)
Definition onServerTimeOffset (v : JsVal) (s : Service) : Service :=
  {| lastUserOpId := lastUserOpId s;
     seekThrottle := seekThrottle s;
     serverTimeOffsetMs := match v with JNum q => q | _ => 0 end |}.

Definition nowServerMs (s : Service) (now : Z) : Q :=
  inject_Z now + serverTimeOffsetMs s.

Definition generateOpId (e : Env) : string :=
  pretty (dateNow e) +:+ "-" +:+ randomSuffix e.

(** [typeof current?.version === 'number' ? current.version + 1 : 1] *)
Definition getNextVersion (current : option (gmap string JsVal)) : Q :=
  match current ≫= (λ c, c !! "version") with
  | Some (JNum v) => v + 1
  | _ => 1
  end.

Definition withOpId (s : Service) (opId : string) : Service :=
  {| lastUserOpId := Some opId;
     seekThrottle := seekThrottle s;
     serverTimeOffsetMs := serverTimeOffsetMs s |}.

Definition withThrottle (s : Service) (b : bool) : Service :=
  {| lastUserOpId := lastUserOpId s;
     seekThrottle := b;
     serverTimeOffsetMs := serverTimeOffsetMs s |}.

Definition playSongPayload (e : Env) (userId songId : string)
    (songMeta : SongMeta) (volume : Q) (opId : string)
    (current : option (gmap string JsVal)) : Payload :=
  [("songId", JStr songId);
   ("songMeta", metaObj songMeta);
   ("isPlaying", JBool true);
   ("position", JNum 0);
   ("volume", JNum volume);
   ("initiator", JStr userId);
   ("opId", JStr opId);
   ("version", JNum (getNextVersion current));
   ("updatedAt", JNum (serverTs e));
   ("startServerTs", JNum (serverTs e))].

(** An omitted [volume] defaults to 80 in the source; the model takes the
    argument explicitly. *)
Definition playSong (e : Env) (roomId userId songId : string)
    (songMeta : SongMeta) (volume : Q) (s : Service) (d : Database)
  : Completion string * Service * Database :=
  let playbackRef := playbackRef roomId in
  let current := get playbackRef d in
  let opId := generateOpId e in
  let s := withOpId s opId in
  let d := set playbackRef
             (playSongPayload e userId songId songMeta volume opId current) d in
  (Returned opId, s, d).

Definition pausePayload (e : Env) (userId : string) (position : Q)
    (opId : string) (current : gmap string JsVal) : Payload :=
  [("isPlaying", JBool false);
   ("position", JNum position);
   ("initiator", JStr userId);
   ("opId", JStr opId);
   ("version", JNum (getNextVersion (Some current)));
   ("updatedAt", JNum (serverTs e));
   ("startServerTs", JNull)].

Definition pause (e : Env) (roomId userId : string) (position : Q)
    (s : Service) (d : Database) : Completion unit * Service * Database :=
  let playbackRef := playbackRef roomId in
  match get playbackRef d with
  | None => (Returned tt, s, d)
  | Some current =>
      let opId := generateOpId e in
      let s := withOpId s opId in
      (Returned tt, s,
       update playbackRef (pausePayload e userId position opId current) d)
  end.

Definition resumePayload (e : Env) (userId : string) (position : Q)
    (opId : string) (current : gmap string JsVal) : Payload :=
  [("isPlaying", JBool true);
   ("position", JNum position);
   ("initiator", JStr userId);
   ("opId", JStr opId);
   ("version", JNum (getNextVersion (Some current)));
   ("updatedAt", JNum (serverTs e));
   ("startServerTs", JNum (serverTs e))].

Definition resume (e : Env) (roomId userId : string) (position : Q)
    (s : Service) (d : Database) : Completion unit * Service * Database :=
  let playbackRef := playbackRef roomId in
  match get playbackRef d with
  | None => (Returned tt, s, d)
  | Some current =>
      let opId := generateOpId e in
      let s := withOpId s opId in
      (Returned tt, s,
       update playbackRef (resumePayload e userId position opId current) d)
  end.

Definition seekPayload (e : Env) (userId : string) (position : Q)
    (isPlaying : bool) (opId : string) (current : gmap string JsVal)
  : Payload :=
  [("position", JNum position);
   ("isPlaying", JBool isPlaying);
   ("initiator", JStr userId);
   ("opId", JStr opId);
   ("version", JNum (getNextVersion (Some current)));
   ("updatedAt", JNum (serverTs e));
   ("startServerTs", if isPlaying then JNum (serverTs e) else JNull)].

(** The throttle test and the arming of the 250 ms timer come before the
    first [await]; the timer's callback is [seekThrottleTimeout]. *)
Definition seek (e : Env) (roomId userId : string) (position : Q)
    (isPlaying : bool) (s : Service) (d : Database)
  : Completion unit * Service * Database :=
  if seekThrottle s then (Returned tt, s, d)
  else
    let s := withThrottle s true in
    let playbackRef := playbackRef roomId in
    match get playbackRef d with
    | None => (Returned tt, s, d)
    | Some current =>
        let opId := generateOpId e in
        let s := withOpId s opId in
        (Returned tt, s,
         update playbackRef
           (seekPayload e userId position isPlaying opId current) d)
    end.

Definition seekThrottleTimeout (s : Service) : Service :=
  withThrottle s false.

(** What [subscribe] hands to its callback: [callback(null, null, false)]
    or [callback(state, syncedPos, isLocal)]. *)
Inductive Delivery : Type :=
| NoState
| State (state : gmap string JsVal) (syncedPos : Q) (isLocal : bool).

Definition isLocalOf (s : Service) (state : gmap string JsVal) : bool :=
  match field state "opId", lastUserOpId s with
  | JStr o, Some l => String.eqb o l
  | _, _ => false
  end.

Definition positionOf (raw : gmap string JsVal) : Q :=
  match field raw "position" with JNum p => p | _ => 0 end.

(** [typeof raw.startServerTs === 'number' ? raw.startServerTs : null] *)
Definition startServerTsOf (raw : gmap string JsVal) : option Q :=
  match field raw "startServerTs" with JNum t => Some t | _ => None end.

Definition syncedPosOf (s : Service) (now : Z) (raw : gmap string JsVal) : Q :=
  let position := positionOf raw in
  match startServerTsOf raw with
  | Some startServerTs =>
      if truthy (field raw "isPlaying") && truthy (JNum startServerTs)
      then position + (nowServerMs s now - startServerTs) / 1000
      else position
  | None => position
  end.

(** The [onValue] listener installed by [subscribe]. *)
Definition onValue (s : Service) (now : Z)
    (raw : option (gmap string JsVal)) : Delivery :=
  match raw with
  | None => NoState
  | Some raw => State raw (syncedPosOf s now raw) (isLocalOf s raw)
  end.

Definition heartbeatPayload (e : Env) (position : Q) (isPlaying : bool)
  : Payload :=
  [("position", JNum position);
   ("updatedAt", JNum (serverTs e));
   ("startServerTs", if isPlaying then JNum (serverTs e) else JNull)].

(** One firing of the interval installed by [startHeartbeat];
    [getPlayerState] stands for what the callback of that name returns. *)
Definition heartbeatTick (e : Env) (roomId userId : string)
    (getPlayerState : Q * bool) (d : Database) : Database :=
  let '(position, isPlaying) := getPlayerState in
  let refPath := playbackRef roomId in
  match get refPath d with
  | None => d
  | Some current =>
      if negb (strict_eq (field current "initiator") (JStr userId)) then d
      else update refPath (heartbeatPayload e position isPlaying) d
  end.


(** The children a heartbeat writes. *)
Definition heartbeatKeys : list string :=
  ["position"; "updatedAt"; "startServerTs"].

(** The events of one client that bear on the seek throttle: a seek intent
    reaching [seek], and the firing of the 250 ms timer armed by an earlier
    [seek]. *)
Inductive ClientEvent : Type :=
| SeekIntent (e : Env) (position : Q) (isPlaying : bool)
| ThrottleTimeout.

Definition clientStep (roomId userId : string) (sd : Service * Database)
    (ev : ClientEvent) : Service * Database :=
  match ev with
  | SeekIntent e position isPlaying =>
      let '(_, s, d) := seek e roomId userId position isPlaying sd.1 sd.2 in
      (s, d)
  | ThrottleTimeout => (seekThrottleTimeout sd.1, sd.2)
  end.

Definition runClient (roomId userId : string) (evs : list ClientEvent)
    (sd : Service * Database) : Service * Database :=
  foldl (clientStep roomId userId) sd evs.

End RoomPlayback.

(** ** MusicPlayerProvider: the room-sync effect *)

Module MusicPlayer.
Import Firebase RoomPlayback.

Record Song : Type := mkSong {
  song_id : JsVal;
  song_title : JsVal;
  song_artist : JsVal;
  song_thumbnail : JsVal
}.

(** [playerRef.current]: absent, or a player whose [getCurrentTime?.()]
    yields a number ([Some t]) or something else ([None]). *)
Inductive PlayerRef : Type :=
| NoPlayer
| Player (local : option Q).

(** React state and refs of the provider that the room sync reads or writes.
    [seeks] records the calls [playerRef.current.seekTo(t, true)], oldest
    first. *)
Record Provider : Type := mkProvider {
  currentSong : option Song;
  isPlaying : JsVal;
  currentTime : Q;
  duration : Q;
  volume : JsVal;
  playerKey : Z;
  lastAppliedVersion : Q;
  isSyncing : bool;
  hasInitialSynced : bool;
  pendingSyncPosition : option Q;
  seeks : list Q
}.

(** [typeof state.version === 'number' ? state.version : 0] *)
Definition versionOf (state : gmap string JsVal) : Q :=
  match field state "version" with JNum v => v | _ => 0 end.

(** [state.songMeta ?? { title: 'Unknown', artist: '', thumbnail: '' }] *)
Definition metaOf (state : gmap string JsVal) : JsVal :=
  if nullish (field state "songMeta")
  then JObj [("title", JStr "Unknown"); ("artist", JStr ""); ("thumbnail", JStr "")]
  else field state "songMeta".

(** [prev?.id === state.songId] *)
Definition isSameSong (prev : option Song) (state : gmap string JsVal) : bool :=
  strict_eq (match prev with Some p => song_id p | None => JUndefined end)
            (field state "songId").

Definition songOf (state : gmap string JsVal) : Song :=
  let meta := metaOf state in
  {| song_id := field state "songId";
     song_title := prop meta "title";
     song_artist := prop meta "artist";
     song_thumbnail := prop meta "thumbnail" |}.

(** [!hasInitialSyncedRef.current ||
     (typeof local === 'number' && Math.abs(local - nextTime) > 2)] *)
Definition shouldForceSeek (hasInitial : bool) (local : option Q) (nextTime : Q)
  : bool :=
  negb hasInitial ||
  match local with
  | Some l => if Qlt_le_dec 2 (Qabs (l - nextTime)) then true else false
  | None => false
  end.

Definition setLastAppliedVersion (v : Q) (st : Provider) : Provider :=
  {| currentSong := currentSong st; isPlaying := isPlaying st;
     currentTime := currentTime st; duration := duration st;
     volume := volume st; playerKey := playerKey st;
     lastAppliedVersion := v; isSyncing := isSyncing st;
     hasInitialSynced := hasInitialSynced st;
     pendingSyncPosition := pendingSyncPosition st; seeks := seeks st |}.

(** The statements of the callback after the echo test, the updater handed
    to [setCurrentSong] left aside: the refs are written at once, and what
    [setIsPlaying], [setCurrentTime] and [setVolumeState] queue is in place
    at the render that follows.  [nextTime] is
    [syncedPos ?? state.position]; [subscribe] always passes a number for
    [syncedPos] with a state. *)
Definition remoteBody (player : PlayerRef) (state : gmap string JsVal)
    (nextTime : Q) (st : Provider) : Provider :=
  let force :=
    match player with
    | Player local => shouldForceSeek (hasInitialSynced st) local nextTime
    | NoPlayer => false
    end in
  {| currentSong := currentSong st;
     isPlaying := field state "isPlaying";
     currentTime := nextTime;
     duration := duration st;
     volume := if negb (strict_eq (field state "volume") (volume st))
               then field state "volume" else volume st;
     playerKey := playerKey st;
     lastAppliedVersion := lastAppliedVersion st;
     isSyncing := true;
     hasInitialSynced := if force then true else hasInitialSynced st;
     pendingSyncPosition :=
       match player with
       | Player _ => if force then None else pendingSyncPosition st
       | NoPlayer => Some nextTime
       end;
     seeks := if force then seeks st ++ [nextTime] else seeks st |}.

(** The updater handed to [setCurrentSong].  React queues it and runs it in
    the render that follows the callback, hence after the statements above:
    [prev] is the song of that render.  For another song, what the updater
    sets itself ([setDuration(0)] and [forcePlayerReload()], which is
    [setPlayerKey(prev => prev + 1)], [setDuration(0)] and
    [setCurrentTime(0)]) comes after the callback's
    [setCurrentTime(nextTime)], and the pending position it writes replaces
    what the callback left in the ref. *)
Definition songUpdater (state : gmap string JsVal) (nextTime : Q)
    (st : Provider) : Provider :=
  if isSameSong (currentSong st) state then st
  else
    {| currentSong := Some (songOf state);
       isPlaying := isPlaying st;
       currentTime := 0;
       duration := 0;
       volume := volume st;
       playerKey := (playerKey st + 1)%Z;
       lastAppliedVersion := lastAppliedVersion st;
       isSyncing := isSyncing st;
       hasInitialSynced := hasInitialSynced st;
       pendingSyncPosition := Some nextTime;
       seeks := seeks st |}.

(** A remote state replayed on the local player: the callback, then the
    render it causes. *)
Definition remoteApply (player : PlayerRef) (state : gmap string JsVal)
    (nextTime : Q) (st : Provider) : Provider :=
  songUpdater state nextTime (remoteBody player state nextTime st).

(** The callback the provider passes to [roomPlaybackService.subscribe]. *)
Definition syncCallback (player : PlayerRef) (dl : Delivery) (st : Provider)
  : Provider :=
  match dl with
  | NoState => st
  | State state syncedPos isLocal =>
      let version := versionOf state in
      if Qlt_le_dec version (lastAppliedVersion st) then st
      else
        let st := setLastAppliedVersion version st in
        if isLocal then st
        else remoteApply player state syncedPos st
  end.

(** The 400 ms timer armed at the end of a remote apply. *)
Definition syncingTimeout (st : Provider) : Provider :=
  {| currentSong := currentSong st; isPlaying := isPlaying st;
     currentTime := currentTime st; duration := duration st;
     volume := volume st; playerKey := playerKey st;
     lastAppliedVersion := lastAppliedVersion st; isSyncing := false;
     hasInitialSynced := hasInitialSynced st;
     pendingSyncPosition := pendingSyncPosition st; seeks := seeks st |}.

(** [setActiveRoom]: the part that concerns the room sync. *)
Definition setActiveRoom (st : Provider) : Provider :=
  setLastAppliedVersion 0 st.

(** The statements of the subscribing effect that precede the call of
    [subscribe]; outside a room the effect returns at once. *)
Definition subscribeEffect (inRoom : bool) (st : Provider) : Provider :=
  if negb inRoom then st
  else
    {| currentSong := currentSong st; isPlaying := isPlaying st;
       currentTime := currentTime st; duration := duration st;
       volume := volume st; playerKey := playerKey st;
       lastAppliedVersion := lastAppliedVersion st; isSyncing := isSyncing st;
       hasInitialSynced := false;
       pendingSyncPosition := None; seeks := seeks st |}.


(** An update as it reaches one client: the delivered state together with
    what [playerRef.current] is at that moment. *)
Record Update : Type := mkUpdate {
  u_player : PlayerRef;
  u_state : gmap string JsVal;
  u_syncedPos : Q;
  u_isLocal : bool
}.

Definition deliver (u : Update) (st : Provider) : Provider :=
  syncCallback (u_player u) (State (u_state u) (u_syncedPos u) (u_isLocal u)) st.

Definition deliverAll (us : list Update) (st : Provider) : Provider :=
  foldl (λ st u, deliver u st) st us.


(** The media-facing part of the provider: everything but the applied
    version. *)
Definition sameMedia (st st' : Provider) : Prop :=
  currentSong st' = currentSong st ∧
  isPlaying st' = isPlaying st ∧
  currentTime st' = currentTime st ∧
  duration st' = duration st ∧
  volume st' = volume st ∧
  playerKey st' = playerKey st ∧
  isSyncing st' = isSyncing st ∧
  hasInitialSynced st' = hasInitialSynced st ∧
  pendingSyncPosition st' = pendingSyncPosition st ∧
  seeks st' = seeks st.

End MusicPlayer.

(** ** roomQueueService.ts *)

Module RoomQueue.
Import Firebase.

Record RoomQueueItem : Type := mkItem {
  itemId : string;
  song : JsVal;
  addedBy : JsVal;
  addedAt : option Q
}.

Definition queueRef (roomId : string) : string :=
  "rooms/" +:+ roomId +:+ "/queue".

(** The mapping applied to each pair of [Object.entries(val)]. *)
Definition toItem (entry : string * JsVal) : RoomQueueItem :=
  {| itemId := entry.1;
     song := prop entry.2 "song";
     addedBy := prop entry.2 "addedBy";
     addedAt := match prop entry.2 "addedAt" with
                | JNum t => Some t
                | _ => None
                end |}.

Section WithCollation.

(** [String.prototype.localeCompare] belongs to the platform, not to the
    repository: it is a parameter of the model. *)
Variable localeCompare : string → string → Z.

(** The comparator given to [items.sort]. *)
Definition compareItems (a b : RoomQueueItem) : Q :=
  let ta := default 0%Q (addedAt a) in
  let tb := default 0%Q (addedAt b) in
  if negb (Qeq_bool ta tb) then ta - tb
  else inject_Z (localeCompare (itemId a) (itemId b)).

(** [a] may stay in front of [b]: the comparator does not return a positive
    number. *)
Definition before (a b : RoomQueueItem) : Prop :=
  (compareItems a b <= 0)%Q.

#[local] Instance before_dec : RelDecision before.
Proof.
  intros a b. unfold before.
  destruct (Qlt_le_dec 0 (compareItems a b)) as [H | H].
  - right. apply Qlt_not_le, H.
  - left. exact H.
Defined.

(** [items.sort(cmp)]: with a comparator that is a total order the sorted
    array is determined by the specification of [Array.prototype.sort]; a
    merge sort computes it. *)
Definition sortItems (items : list RoomQueueItem) : list RoomQueueItem :=
  merge_sort before items.

(** [getFirstItem] on the value of the queue snapshot, given as the list
    [Object.entries] returns ([None] for [null]). *)
Definition getFirstItemOf (val : option (list (string * JsVal)))
  : option RoomQueueItem :=
  match val with
  | None => None
  | Some entries => head (sortItems (toItem <$> entries))
  end.

(** The list [subscribe] passes to its callback. *)
Definition onQueueValue (val : option (list (string * JsVal)))
  : list RoomQueueItem :=
  match val with
  | None => []
  | Some entries => sortItems (toItem <$> entries)
  end.

(** Reading the snapshot from the database. *)
Definition queueVal (roomId : string) (d : Database)
  : option (list (string * JsVal)) :=
  map_to_list <$> get (queueRef roomId) d.

Definition getFirstItem (roomId : string) (d : Database)
  : option RoomQueueItem :=
  getFirstItemOf (queueVal roomId d).

End WithCollation.

(** The pair the queue is ordered by, [(addedAt ?? 0, itemId)], and the
    lexicographic order on such pairs, item ids being compared by the
    collation. *)
Definition sortKey (a : RoomQueueItem) : Q * string :=
  (default 0%Q (addedAt a), itemId a).

Definition keyLe (collate : string → string → Z) (a b : RoomQueueItem) : Prop :=
  ((sortKey a).1 < (sortKey b).1)%Q ∨
  ((sortKey a).1 == (sortKey b).1 ∧ (collate (sortKey a).2 (sortKey b).2 ≤ 0)%Z).

(** A collation used to exercise the statements: comparison by code units,
    the lexical order of strings. *)
Definition codeUnitCompare (a b : string) : Z :=
  match String.compare a b with
  | Lt => (-1)%Z
  | Eq => 0%Z
  | Gt => 1%Z
  end.

(** A second collation, of the kind the default collation of the platform
    is: letters are compared without regard to case first, and two strings
    that are equal up to case are ordered lower case first. *)
Definition lowerAscii (c : Ascii.ascii) : Ascii.ascii :=
  let n := Ascii.nat_of_ascii c in
  if Nat.leb 65 n && Nat.leb n 90 then Ascii.ascii_of_nat (n + 32) else c.

Fixpoint lowerCase (s : string) : string :=
  match s with
  | EmptyString => EmptyString
  | String c rest => String (lowerAscii c) (lowerCase rest)
  end.

Definition caseFoldCompare (a b : string) : Z :=
  match String.compare (lowerCase a) (lowerCase b) with
  | Lt => (-1)%Z
  | Eq => codeUnitCompare b a
  | Gt => 1%Z
  end.

End RoomQueue.

(** ** Several clients issuing commands on one room *)

Module RoomSession.
Import Firebase RoomPlayback.

(** The service singleton of a freshly loaded client. *)
Definition newService : Service :=
  {| lastUserOpId := None; seekThrottle := false; serverTimeOffsetMs := 0 |}.

(** What a client can ask of its service, or what a timer of the service
    does. *)
Inductive Command : Type :=
| CPlaySong (songId : string) (songMeta : SongMeta) (volume : Q)
| CPause (position : Q)
| CResume (position : Q)
| CSeek (position : Q) (isPlaying : bool)
| CSeekTimeout
| CHeartbeat (position : Q) (isPlaying : bool).

Definition exec (e : Env) (roomId userId : string) (c : Command)
    (sd : Service * Database) : Service * Database :=
  match c with
  | CPlaySong songId songMeta volume =>
      let '(_, s, d) := playSong e roomId userId songId songMeta volume
                          sd.1 sd.2 in (s, d)
  | CPause position =>
      let '(_, s, d) := pause e roomId userId position sd.1 sd.2 in (s, d)
  | CResume position =>
      let '(_, s, d) := resume e roomId userId position sd.1 sd.2 in (s, d)
  | CSeek position isPlaying =>
      let '(_, s, d) := seek e roomId userId position isPlaying sd.1 sd.2 in
      (s, d)
  | CSeekTimeout => (seekThrottleTimeout sd.1, sd.2)
  | CHeartbeat position isPlaying =>
      (sd.1, heartbeatTick e roomId userId (position, isPlaying) sd.2)
  end.

(** One service per client, all on the same database.  The commands of a
    run are executed one after another: each one's read and write are done
    before the next command starts. *)
Record World : Type := mkWorld {
  clients : gmap string Service;
  database : Database
}.

Definition serviceOf (w : World) (userId : string) : Service :=
  default newService (clients w !! userId).

Record Issue : Type := mkIssue {
  issuer : string;
  issueEnv : Env;
  command : Command
}.

Definition issue (roomId : string) (w : World) (i : Issue) : World :=
  let sd := exec (issueEnv i) roomId (issuer i) (command i)
              (serviceOf w (issuer i), database w) in
  {| clients := <[issuer i := sd.1]> (clients w); database := sd.2 |}.

Definition runIssues (roomId : string) (issues : list Issue) (w : World)
  : World :=
  foldl (issue roomId) w issues.

(** The payload a transport command hands to [update] once it has read
    [current] and generated [opId]. *)
Definition payloadOf (e : Env) (userId : string) (c : Command)
    (opId : string) (current : gmap string JsVal) : option Payload :=
  match c with
  | CPause position => Some (pausePayload e userId position opId current)
  | CResume position => Some (resumePayload e userId position opId current)
  | CSeek position isPlaying =>
      Some (seekPayload e userId position isPlaying opId current)
  | CPlaySong _ _ _ | CSeekTimeout | CHeartbeat _ _ => None
  end.

(** The transport operations that merge into the record. *)
Definition isTransport (c : Command) : bool :=
  match c with
  | CPause _ | CResume _ | CSeek _ _ => true
  | _ => false
  end.

(** The transport flag and position a command asks for. *)
Definition targetOf (c : Command) : option (bool * Q) :=
  match c with
  | CPlaySong _ _ _ => Some (true, 0%Q)
  | CPause position => Some (false, position)
  | CResume position => Some (true, position)
  | CSeek position isPlaying => Some (isPlaying, position)
  | CSeekTimeout | CHeartbeat _ _ => None
  end.

(** Whether a command, issued on service [s] when the record read is
    [current], reaches its write. *)
Definition effective (c : Command) (s : Service)
    (current : option (gmap string JsVal)) : bool :=
  match c with
  | CPlaySong _ _ _ => true
  | CPause _ | CResume _ => bool_decide (is_Some current)
  | CSeek _ _ => bool_decide (is_Some current) && negb (seekThrottle s)
  | CSeekTimeout | CHeartbeat _ _ => false
  end.

(** The number of commands of a run that reach their write. *)
Fixpoint effectiveCount (roomId : string) (issues : list Issue) (w : World)
  : nat :=
  match issues with
  | [] => 0
  | i :: rest =>
      (if effective (command i) (serviceOf w (issuer i))
            (get (playbackRef roomId) (database w))
       then 1 else 0)
      + effectiveCount roomId rest (issue roomId w i)
  end.

(** The version the next operation on the room would write. *)
Definition nextVersion (roomId : string) (d : Database) : Q :=
  getNextVersion (get (playbackRef roomId) d).

(** The children a transport operation ([pause], [resume], [seek]) names. *)
Definition transportKeys : list string :=
  ["isPlaying"; "position"; "initiator"; "opId"; "version"; "updatedAt";
   "startServerTs"].

(** A record as an operation of [userId] leaves it: typed children, the
    operation id remembered by the issuer's service, and a start timestamp
    exactly when playing. *)
Definition issuedRecord (s : Service) (userId : string) (playing : bool)
    (position version ts : Q) (r : gmap string JsVal) : Prop :=
  r !! "isPlaying" = Some (JBool playing) ∧
  r !! "position" = Some (JNum position) ∧
  r !! "version" = Some (JNum version) ∧
  r !! "initiator" = Some (JStr userId) ∧
  r !! "updatedAt" = Some (JNum ts) ∧
  r !! "startServerTs" = (if playing then Some (JNum ts) else None) ∧
  ∃ opId, r !! "opId" = Some (JStr opId) ∧ lastUserOpId s = Some opId.

(** The separator of operation ids, and whether a string contains it. *)
Definition dash : Ascii.ascii := Ascii.ascii_of_nat 45.

Fixpoint hasDash (s : string) : bool :=
  match s with
  | EmptyString => false
  | String a rest => Ascii.eqb a dash || hasDash rest
  end.

End RoomSession.

(** ** roomQueueService.ts: adding and removing items *)

Module QueueOps.
Import Firebase RoomQueue.

(** [RoomQueueSong] (fields [id], [title], [artist], [thumbnail] and the
    optional [duration], absent when [None]). *)
Record RoomQueueSong : Type := mkQueueSong {
  qs_id : string;
  qs_title : string;
  qs_artist : string;
  qs_thumbnail : string;
  qs_duration : option Q
}.

Definition songObj (s : RoomQueueSong) : JsVal :=
  JObj ([("id", JStr (qs_id s)); ("title", JStr (qs_title s));
         ("artist", JStr (qs_artist s));
         ("thumbnail", JStr (qs_thumbnail s))]
        ++ match qs_duration s with
           | Some t => [("duration", JNum t)]
           | None => []
           end).

(** [set(ref, value)] and [remove(ref)] where [ref] is the child [key] of
    the node at [parent]. *)
Definition setChild (parent key : string) (p : Payload) (d : Database)
  : Database :=
  {| nodes := put parent (<[key := JObj p]> (default ∅ (nodes d !! parent)))
                (nodes d);
     writes := writes d ++ [WSet (parent +:+ "/" +:+ key) p] |}.

Definition removeChild (parent key : string) (d : Database) : Database :=
  {| nodes := put parent (delete key (default ∅ (nodes d !! parent)))
                (nodes d);
     writes := writes d |}.

Definition itemPayload (userId : string) (song : RoomQueueSong) (ts : Q)
  : Payload :=
  [("song", songObj song); ("addedBy", JStr userId); ("addedAt", JNum ts)].

(** [addSong]; [key] is [push(listRef).key] ([None] for [null]) and [ts] the
    value the server writes for [serverTimestamp()]. *)
Definition addSong (key : option string) (ts : Q) (roomId userId : string)
    (song : RoomQueueSong) (d : Database) : Completion string * Database :=
  match key with
  | Some k =>
      if String.eqb k "" then (Thrown "Failed to create queue item", d)
      else (Returned k,
            setChild (queueRef roomId) k (itemPayload userId song ts) d)
  | None => (Thrown "Failed to create queue item", d)
  end.

(** [removeItem], for an [itemId] that is a child key (push keys are not
    empty and hold no ["/"]). *)
Definition removeItem (roomId itemId : string) (d : Database) : Database :=
  removeChild (queueRef roomId) itemId d.

(** The item a subscriber builds from what [addSong] wrote. *)
Definition addedItem (k userId : string) (song : RoomQueueSong) (ts : Q)
  : RoomQueueItem :=
  {| itemId := k; song := songObj song; addedBy := JStr userId;
     addedAt := Some ts |}.

End QueueOps.

(** ** roomPlaybackService.ts: listeners and heartbeat intervals *)

Module ServiceRegistry.
Import Firebase RoomPlayback.

(** The bookkeeping fields of the service next to its [Service] core,
    together with what they refer to on the platform: the database
    listeners that are still attached and the intervals that still run.
    Handles are the positive numbers the platform hands out; the function
    [onValue] returns detaches the listener of that handle. *)
Record Registry : Type := mkRegistry {
  core : Service;
  subscriptions : gmap string positive;
  heartbeatIntervals : gmap string positive;
  serverOffsetUnsub : option positive;
  attached : gset positive;
  running : gmap positive (string * string)
}.

Definition emptyRegistry : Registry :=
  {| core := {| lastUserOpId := None; seekThrottle := false;
                serverTimeOffsetMs := 0 |};
     subscriptions := ∅; heartbeatIntervals := ∅; serverOffsetUnsub := None;
     attached := ∅; running := ∅ |}.

(** [ensureServerTimeOffsetListener]; [h] is the listener [onValue] would
    attach. *)
Definition ensureServerTimeOffsetListener (h : positive) (g : Registry)
  : Registry :=
  match serverOffsetUnsub g with
  | Some _ => g
  | None =>
      {| core := core g; subscriptions := subscriptions g;
         heartbeatIntervals := heartbeatIntervals g;
         serverOffsetUnsub := Some h;
         attached := {[h]} ∪ attached g; running := running g |}
  end.

(** [subscribe]: the offset listener is ensured, a listener is attached to
    the room's playback and its detaching function is stored under the room
    and returned. *)
Definition subscribe (hOffset hListener : positive) (roomId : string)
    (g : Registry) : positive * Registry :=
  let g := ensureServerTimeOffsetListener hOffset g in
  (hListener,
   {| core := core g;
      subscriptions := <[roomId := hListener]> (subscriptions g);
      heartbeatIntervals := heartbeatIntervals g;
      serverOffsetUnsub := serverOffsetUnsub g;
      attached := {[hListener]} ∪ attached g; running := running g |}).

(** Calling the function [onValue] returned for listener [h]. *)
Definition detach (h : positive) (g : Registry) : Registry :=
  {| core := core g; subscriptions := subscriptions g;
     heartbeatIntervals := heartbeatIntervals g;
     serverOffsetUnsub := serverOffsetUnsub g;
     attached := attached g ∖ {[h]}; running := running g |}.

Definition stopHeartbeat (roomId : string) (g : Registry) : Registry :=
  {| core := core g; subscriptions := subscriptions g;
     heartbeatIntervals := delete roomId (heartbeatIntervals g);
     serverOffsetUnsub := serverOffsetUnsub g;
     attached := attached g;
     running := match heartbeatIntervals g !! roomId with
                | Some interval => delete interval (running g)
                | None => running g
                end |}.

(** [startHeartbeat]; [h] is the handle [setInterval] returns, and the
    interval runs the heartbeat of [userId] on [roomId]. *)
Definition startHeartbeat (h : positive) (roomId userId : string)
    (g : Registry) : Registry :=
  let g := stopHeartbeat roomId g in
  {| core := core g; subscriptions := subscriptions g;
     heartbeatIntervals := <[roomId := h]> (heartbeatIntervals g);
     serverOffsetUnsub := serverOffsetUnsub g;
     attached := attached g;
     running := <[h := (roomId, userId)]> (running g) |}.

Definition unsubscribe (roomId : string) (g : Registry) : Registry :=
  let g := stopHeartbeat roomId g in
  match subscriptions g !! roomId with
  | Some unsub =>
      let g := detach unsub g in
      {| core := core g; subscriptions := delete roomId (subscriptions g);
         heartbeatIntervals := heartbeatIntervals g;
         serverOffsetUnsub := serverOffsetUnsub g;
         attached := attached g; running := running g |}
  | None => g
  end.

(** The set of handles stored in a map. *)
Definition handlesOf (m : gmap string positive) : gset positive :=
  map_to_set (λ _ h, h) m.

Definition cleanup (g : Registry) : Registry :=
  {| core := {| lastUserOpId := None;
                seekThrottle := seekThrottle (core g);
                serverTimeOffsetMs := 0 |};
     subscriptions := ∅;
     heartbeatIntervals := ∅;
     serverOffsetUnsub := None;
     attached := (attached g ∖ handlesOf (subscriptions g))
                 ∖ match serverOffsetUnsub g with
                   | Some h => {[h]}
                   | None => ∅
                   end;
     running := filter (λ hv, hv.1 ∉ handlesOf (heartbeatIntervals g))
                  (running g) |}.

(** One firing of interval [h]: a cleared interval does not fire. *)
Definition intervalFires (e : Env) (h : positive) (playerState : Q * bool)
    (g : Registry) (d : Database) : Database :=
  match running g !! h with
  | Some (roomId, userId) => heartbeatTick e roomId userId playerState d
  | None => d
  end.

(** The intervals that run are those stored, each under the room it was
    started for. *)
Definition intervalsConsistent (g : Registry) : Prop :=
  (∀ h roomId userId, running g !! h = Some (roomId, userId) →
                      heartbeatIntervals g !! roomId = Some h) ∧
  (∀ roomId h, heartbeatIntervals g !! roomId = Some h →
               ∃ userId, running g !! h = Some (roomId, userId)).

(** What a client does to the bookkeeping. *)
Inductive RegistryOp : Type :=
| OpSubscribe (hOffset hListener : positive) (roomId : string)
| OpUnsubscribe (roomId : string)
| OpStartHeartbeat (h : positive) (roomId userId : string)
| OpStopHeartbeat (roomId : string)
| OpCleanup.

Definition applyOp (g : Registry) (op : RegistryOp) : Registry :=
  match op with
  | OpSubscribe hOffset hListener roomId =>
      (subscribe hOffset hListener roomId g).2
  | OpUnsubscribe roomId => unsubscribe roomId g
  | OpStartHeartbeat h roomId userId => startHeartbeat h roomId userId g
  | OpStopHeartbeat roomId => stopHeartbeat roomId g
  | OpCleanup => cleanup g
  end.

(** The platform never hands out the handle of an interval that still
    runs. *)
Fixpoint freshHandles (ops : list RegistryOp) (g : Registry) : Prop :=
  match ops with
  | [] => True
  | op :: rest =>
      match op with
      | OpStartHeartbeat h _ _ => running g !! h = None
      | _ => True
      end ∧ freshHandles rest (applyOp g op)
  end.

End ServiceRegistry.

(** ** MusicPlayerProvider: the pause and resume actions *)

Module PlayerActions.
Import Firebase RoomPlayback MusicPlayer.

(** [activeRoomId] and [activeUserId], [None] for [null]. *)
Record RoomContext : Type := mkRoomContext {
  activeRoomId : option string;
  activeUserId : option string
}.

(** Truthiness of a [string | null]. *)
Definition truthyId (o : option string) : bool :=
  match o with
  | Some s => negb (String.eqb s "")
  | None => false
  end.

(** [Boolean(activeRoomId && activeUserId)] *)
Definition inRoom (c : RoomContext) : bool :=
  truthyId (activeRoomId c) && truthyId (activeUserId c).

(** The ids when [inRoom && activeRoomId && activeUserId] holds. *)
Definition roomIds (c : RoomContext) : option (string * string) :=
  if inRoom c && truthyId (activeRoomId c) && truthyId (activeUserId c)
  then match activeRoomId c, activeUserId c with
       | Some roomId, Some userId => Some (roomId, userId)
       | _, _ => None
       end
  else None.

(** [playerRef.current?.getCurrentTime?.() ?? currentTime]; a player
    without a numeric reading is one whose [getCurrentTime] is missing or
    yields [undefined]. *)
Definition reportedPosition (player : PlayerRef) (st : Provider) : Q :=
  match player with
  | Player (Some t) => t
  | _ => currentTime st
  end.

(** [setIsPlaying(v)] *)
Definition setIsPlaying (v : bool) (st : Provider) : Provider :=
  {| currentSong := currentSong st; isPlaying := JBool v;
     currentTime := currentTime st; duration := duration st;
     volume := volume st; playerKey := playerKey st;
     lastAppliedVersion := lastAppliedVersion st; isSyncing := isSyncing st;
     hasInitialSynced := hasInitialSynced st;
     pendingSyncPosition := pendingSyncPosition st; seeks := seeks st |}.

(** [pauseSong] and [resumeSong] of the provider, on the provider's state,
    the service and the database; the service call they start is run to
    its end. *)
Definition pauseSong (e : Env) (c : RoomContext) (player : PlayerRef)
    (psd : Provider * Service * Database) : Provider * Service * Database :=
  let '(st, s, d) := psd in
  if isSyncing st then (st, s, d)
  else
    match roomIds c with
    | Some (roomId, userId) =>
        let pos := reportedPosition player st in
        let st := setIsPlaying false st in
        let '(_, s, d) := pause e roomId userId pos s d in
        (st, s, d)
    | None => (setIsPlaying false st, s, d)
    end.

Definition resumeSong (e : Env) (c : RoomContext) (player : PlayerRef)
    (psd : Provider * Service * Database) : Provider * Service * Database :=
  let '(st, s, d) := psd in
  if isSyncing st then (st, s, d)
  else
    match roomIds c with
    | Some (roomId, userId) =>
        let pos := reportedPosition player st in
        let st := setIsPlaying true st in
        let '(_, s, d) := resume e roomId userId pos s d in
        (st, s, d)
    | None => (setIsPlaying true st, s, d)
    end.

(** The action behind the play/pause control. *)
Definition transportAction (playing : bool) :=
  if playing then resumeSong else pauseSong.

End PlayerActions.

(** ** Sample data used to exercise the statements *)

Module Sample.
Import Firebase RoomPlayback.

Definition emptyDb : Database := {| nodes := ∅; writes := [] |}.

Definition idle : Service :=
  {| lastUserOpId := None; seekThrottle := false; serverTimeOffsetMs := 0 |}.

Definition env (now : Z) (suffix : string) : Env :=
  {| dateNow := now; randomSuffix := suffix; serverTs := inject_Z (now + 40) |}.

Definition meta : SongMeta :=
  {| title := "Blue in Green"; artist := "Miles Davis"; thumbnail := "t.jpg" |}.

(** A room in which alice has started a song. *)
Definition started : Completion string * Service * Database :=
  playSong (env 1700000000000 "k3x9ab") "r1" "alice" "song1" meta 80
    idle emptyDb.

Definition aliceService : Service := started.1.2.
Definition roomDb : Database := started.2.

Definition roomRecord : gmap string JsVal :=
  merge (playSongPayload (env 1700000000000 "k3x9ab") "alice" "song1" meta 80
           "1700000000000-k3x9ab" None) ∅.

(** A record marked as playing whose [startServerTs] is the number 0. *)
Definition zeroStart : gmap string JsVal :=
  merge [("songId", JStr "song1"); ("isPlaying", JBool true);
         ("position", JNum 30); ("version", JNum 1);
         ("updatedAt", JNum 0); ("startServerTs", JNum 0)] ∅.

(** The provider as React first renders it. *)
Definition initial : MusicPlayer.Provider :=
  {| MusicPlayer.currentSong := None;
     MusicPlayer.isPlaying := JBool false;
     MusicPlayer.currentTime := 0;
     MusicPlayer.duration := 0;
     MusicPlayer.volume := JNum 100;
     MusicPlayer.playerKey := 0;
     MusicPlayer.lastAppliedVersion := 0;
     MusicPlayer.isSyncing := false;
     MusicPlayer.hasInitialSynced := false;
     MusicPlayer.pendingSyncPosition := None;
     MusicPlayer.seeks := [] |}.

(** A client that has applied version 5 of a playing room. *)
Definition atVersion5 : MusicPlayer.Provider :=
  {| MusicPlayer.currentSong :=
       Some {| MusicPlayer.song_id := JStr "song1";
               MusicPlayer.song_title := JStr "Blue in Green";
               MusicPlayer.song_artist := JStr "Miles Davis";
               MusicPlayer.song_thumbnail := JStr "t.jpg" |};
     MusicPlayer.isPlaying := JBool true;
     MusicPlayer.currentTime := 42;
     MusicPlayer.duration := 337;
     MusicPlayer.volume := JNum 80;
     MusicPlayer.playerKey := 1;
     MusicPlayer.lastAppliedVersion := 5;
     MusicPlayer.isSyncing := false;
     MusicPlayer.hasInitialSynced := true;
     MusicPlayer.pendingSyncPosition := None;
     MusicPlayer.seeks := [40%Q] |}.

Definition record (songId : string) (playing : bool) (position version : Q)
    (opId : string) (startServerTs : JsVal) : gmap string JsVal :=
  merge [("songId", JStr songId); ("songMeta", metaObj meta);
         ("isPlaying", JBool playing); ("position", JNum position);
         ("volume", JNum 80); ("initiator", JStr "alice");
         ("opId", JStr opId); ("version", JNum version);
         ("updatedAt", JNum 1700000000000);
         ("startServerTs", startServerTs)] ∅.





(** A provider whose applied version has been reset and whose subscribing
    effect has just run. *)
Definition joined : MusicPlayer.Provider :=
  MusicPlayer.subscribeEffect true (MusicPlayer.setActiveRoom initial).

(** A queue of three items: two added at the same instant, one earlier. *)
Definition queueEntry (user : string) (t : Q) : JsVal :=
  JObj [("song", JObj [("id", JStr "song1"); ("title", JStr "Blue in Green")]);
        ("addedBy", JStr user); ("addedAt", JNum t)].

Definition queueDb : Database :=
  update (RoomQueue.queueRef "r1")
    [("-Nb", queueEntry "bob" 1700000000500);
     ("-Na", queueEntry "alice" 1700000000500);
     ("-Nc", queueEntry "carol" 1700000000100)] emptyDb.

(** A queue of two items added at the same instant, whose ids differ in the
    case of their last letter. *)
Definition mixedCaseQueueDb : Database :=
  update (RoomQueue.queueRef "r1")
    [("-Na", queueEntry "alice" 1700000000500);
     ("-NB", queueEntry "bob" 1700000000500)] emptyDb.

(** A service whose last locally issued operation is ["op-3"]. *)
Definition issuerOfOp3 : Service :=
  {| lastUserOpId := Some "op-3"; seekThrottle := false;
     serverTimeOffsetMs := 0 |}.

End Sample.

(** * Properties *)

Import Firebase RoomPlayback.

(** ** The database model *)

Lemma lookup_Some_non_empty (n : gmap string JsVal) k v :
  n !! k = Some v → n ≠ ∅.
Proof. intros Hk ->. by rewrite lookup_empty in Hk. Qed.

Lemma get_put_eq path (n : gmap string JsVal) m w :
  n ≠ ∅ → get path {| nodes := put path n m; writes := w |} = Some n.
Proof.
  intros Hn. unfold get, put; simpl.
  destruct (decide (n = ∅)); [done |]. apply lookup_insert_eq.
Qed.

Lemma get_put_ne path path' (n : gmap string JsVal) m w :
  path ≠ path' →
  get path' {| nodes := put path n m; writes := w |} = m !! path'.
Proof.
  intros Hne. unfold get, put; simpl.
  destruct (decide (n = ∅)).
  - by apply lookup_delete_ne.
  - by apply lookup_insert_ne.
Qed.

Lemma get_update_eq path (p : Payload) d :
  merge p (default ∅ (get path d)) ≠ ∅ →
  get path (update path p d) = Some (merge p (default ∅ (get path d))).
Proof. intros Hn. unfold update. by apply get_put_eq. Qed.

Lemma get_set_eq path (p : Payload) d :
  merge p ∅ ≠ ∅ → get path (set path p d) = Some (merge p ∅).
Proof. intros Hn. unfold set. by apply get_put_eq. Qed.

Lemma merge_child_lookup_ne (n : gmap string JsVal) kv k :
  kv.1 ≠ k → merge_child n kv !! k = n !! k.
Proof.
  intros Hne. unfold merge_child.
  destruct (nullish kv.2).
  - by apply lookup_delete_ne.
  - by apply lookup_insert_ne.
Qed.

(** A merge leaves every child alone that the payload does not name. *)
Lemma merge_lookup_frame (p : Payload) (n : gmap string JsVal) k :
  k ∉ p.*1 → merge p n !! k = n !! k.
Proof.
  unfold merge. revert n.
  induction p as [| kv p IH]; intros n Hk; [done |].
  simpl. rewrite IH.
  - apply merge_child_lookup_ne. intros Heq. apply Hk. rewrite <- Heq. by left.
  - intros Hin. apply Hk. by right.
Qed.

(** Rewriting the lookups of a node built by [merge] from a literal
    payload. *)
Ltac node_lookup :=
  unfold merge, merge_child; simpl;
  repeat first
    [ rewrite lookup_insert_eq
    | rewrite lookup_delete_eq
    | rewrite lookup_insert_ne by done
    | rewrite lookup_delete_ne by done ];
  try done.

Lemma get_roomDb :
  get (playbackRef "r1") Sample.roomDb = Some Sample.roomRecord.
Proof. reflexivity. Qed.

(** ** getNextVersion *)

Lemma getNextVersion_absent : getNextVersion None = 1%Q.
Proof. reflexivity. Qed.

Lemma getNextVersion_number c v :
  c !! "version" = Some (JNum v) → getNextVersion (Some c) = (v + 1)%Q.
Proof. intros Hv. unfold getNextVersion; simpl. by rewrite Hv. Qed.


(** ** The command issuer *)

Lemma playSong_creates e roomId userId songId songMeta volume opId current d :
  get (playbackRef roomId)
    (set (playbackRef roomId)
       (playSongPayload e userId songId songMeta volume opId current) d)
  = Some (merge (playSongPayload e userId songId songMeta volume opId current)
            ∅).
Proof.
  apply get_set_eq.
  apply (lookup_Some_non_empty _ "position" (JNum 0)). node_lookup.
Qed.


(** C10: on a room without playback record, [pause], [resume] and [seek]
    return normally and leave the database untouched (no write is issued);
    so does a heartbeat firing.  [playSong] alone creates the record. *)
Theorem absent_record_only_playSong_writes (e : Env) (roomId userId : string)
    (position : Q) (playing : bool) (songId : string) (songMeta : SongMeta)
    (volume : Q) (s : Service) (d : Database) :
  get (playbackRef roomId) d = None →
  pause e roomId userId position s d = (Returned tt, s, d) ∧
  resume e roomId userId position s d = (Returned tt, s, d) ∧
  seek e roomId userId position playing s d
    = (Returned tt, if seekThrottle s then s else withThrottle s true, d) ∧
  heartbeatTick e roomId userId (position, playing) d = d ∧
  ∃ s' d',
    playSong e roomId userId songId songMeta volume s d
      = (Returned (generateOpId e), s', d') ∧
    is_Some (get (playbackRef roomId) d') ∧
    length (writes d') = S (length (writes d)).
Proof.
  intros Habs.
  unfold pause, resume, seek, heartbeatTick. rewrite Habs.
  repeat (split; [by destruct (seekThrottle s) |]).
  eexists _, _. split; [reflexivity |]. split.
  - rewrite playSong_creates. by eexists.
  - simpl. rewrite length_app. simpl. lia.
Qed.

Lemma absent_record_only_playSong_writes_witness :
  get (playbackRef "r1") Sample.emptyDb = None ∧
  pause (Sample.env 1700000005000 "zz01aa") "r1" "bob" 12 Sample.idle
    Sample.emptyDb = (Returned tt, Sample.idle, Sample.emptyDb).
Proof.
  split; [reflexivity |].
  apply (absent_record_only_playSong_writes
           (Sample.env 1700000005000 "zz01aa") "r1" "bob" 12 true
           "song1" Sample.meta 80 Sample.idle Sample.emptyDb).
  reflexivity.
Defined.

(** ** The heartbeat *)

(** C5: a heartbeat firing on a record whose [initiator] is the runner
    issues one [update] that sets [position], [updatedAt] and
    [startServerTs] (the server timestamp when playing, removed, that is
    null, when paused) and leaves every other child of the record as it was,
    among them [version], [opId], [songId], [songMeta], [isPlaying],
    [volume] and [initiator]; when the stored [initiator] is not the runner
    the firing writes nothing and the database is unchanged.  The payload
    names those three children only, so the frame holds for whatever record
    the update is merged into. *)
Theorem heartbeat_frame (e : Env) (roomId userId : string) (position : Q)
    (playing : bool) (d : Database) (current : gmap string JsVal) :
  get (playbackRef roomId) d = Some current →
  (strict_eq (field current "initiator") (JStr userId) = true →
   ∃ n,
     get (playbackRef roomId)
       (heartbeatTick e roomId userId (position, playing) d) = Some n ∧
     writes (heartbeatTick e roomId userId (position, playing) d)
       = (writes d ++ [WUpdate (playbackRef roomId)
                         (heartbeatPayload e position playing)])%list ∧
     n !! "position" = Some (JNum position) ∧
     n !! "updatedAt" = Some (JNum (serverTs e)) ∧
     n !! "startServerTs"
       = (if playing then Some (JNum (serverTs e)) else None) ∧
     (∀ k, k ∉ heartbeatKeys → n !! k = current !! k) ∧
     n !! "version" = current !! "version" ∧
     n !! "opId" = current !! "opId" ∧
     n !! "songId" = current !! "songId" ∧
     n !! "songMeta" = current !! "songMeta" ∧
     n !! "isPlaying" = current !! "isPlaying" ∧
     n !! "volume" = current !! "volume" ∧
     n !! "initiator" = current !! "initiator") ∧
  (strict_eq (field current "initiator") (JStr userId) = false →
   heartbeatTick e roomId userId (position, playing) d = d) ∧
  (heartbeatPayload e position playing).*1 = heartbeatKeys ∧
  (∀ (n0 : gmap string JsVal) k,
     k ∉ heartbeatKeys →
     merge (heartbeatPayload e position playing) n0 !! k = n0 !! k).
Proof.
  intros Hget.
  assert (Hkeys : (heartbeatPayload e position playing).*1 = heartbeatKeys).
  { by destruct playing. }
  assert (Hany : ∀ (n0 : gmap string JsVal) k, k ∉ heartbeatKeys →
            merge (heartbeatPayload e position playing) n0 !! k = n0 !! k).
  { intros n0 k Hk. apply merge_lookup_frame. by rewrite Hkeys. }
  unfold heartbeatTick. rewrite Hget.
  split; [| split; [| by split]]; intros Hini; rewrite Hini; simpl;
    [| reflexivity].
  set (p := heartbeatPayload e position playing).
  assert (Hframe : ∀ k, k ∉ heartbeatKeys → merge p current !! k = current !! k).
  { intros k Hk. by apply Hany. }
  exists (merge p current).
  split.
  { rewrite get_update_eq; rewrite Hget; simpl default; [reflexivity |].
    apply (lookup_Some_non_empty _ "position" (JNum position)).
    subst p. destruct playing; node_lookup. }
  split; [reflexivity |].
  split; [subst p; destruct playing; node_lookup |].
  split; [subst p; destruct playing; node_lookup |].
  split; [subst p; destruct playing; node_lookup |].
  split; [exact Hframe |].
  repeat split; apply Hframe; unfold heartbeatKeys;
    rewrite !elem_of_cons, elem_of_nil; intuition discriminate.
Qed.

Lemma heartbeat_frame_witness :
  get (playbackRef "r1") Sample.roomDb = Some Sample.roomRecord ∧
  heartbeatTick (Sample.env 1700000008000 "unused") "r1" "bob" (8%Q, true)
    Sample.roomDb = Sample.roomDb ∧
  ∃ n,
    get (playbackRef "r1")
      (heartbeatTick (Sample.env 1700000008000 "unused") "r1" "alice"
         (8%Q, false) Sample.roomDb) = Some n ∧
    n !! "position" = Some (JNum 8) ∧
    n !! "startServerTs" = None ∧
    n !! "version" = Some (JNum 1) ∧
    n !! "isPlaying" = Some (JBool true).
Proof.
  pose proof get_roomDb as Hget.
  destruct (heartbeat_frame (Sample.env 1700000008000 "unused") "r1" "bob"
              8 true Sample.roomDb _ Hget) as (_ & Hother & _).
  destruct (heartbeat_frame (Sample.env 1700000008000 "unused") "r1" "alice"
              8 false Sample.roomDb _ Hget) as (Hown & _).
  split; [exact Hget |].
  split; [apply Hother; reflexivity |].
  destruct (Hown eq_refl) as (n & Hn & _ & Hpos & _ & Hts & _ & Hv & _ & _ & _ & Hp & _).
  exists n. split; [exact Hn |]. split; [exact Hpos |]. split; [exact Hts |].
  split; [rewrite Hv | rewrite Hp]; reflexivity.
Defined.

(** ** The synced position computed by [subscribe] *)

Lemma truthy_num_nonzero (q : Q) : ¬ (q == 0)%Q → truthy (JNum q) = true.
Proof.
  intros Hq. simpl. destruct (Qeq_bool q 0) eqn:E; [| reflexivity].
  by apply Qeq_bool_iff in E.
Qed.

Lemma truthy_num_zero (q : Q) : (q == 0)%Q → truthy (JNum q) = false.
Proof. intros Hq. simpl. apply Qeq_bool_iff in Hq. by rewrite Hq. Qed.

Lemma positionOf_number raw p :
  raw !! "position" = Some (JNum p) → positionOf raw = p.
Proof. intros Hp. unfold positionOf, field. by rewrite Hp. Qed.

(** The branch of [syncedPosOf] that adds the elapsed time. *)
Lemma syncedPosOf_playing s now raw p ts :
  raw !! "position" = Some (JNum p) →
  truthy (field raw "isPlaying") = true →
  raw !! "startServerTs" = Some (JNum ts) →
  ¬ (ts == 0)%Q →
  syncedPosOf s now raw = (p + (nowServerMs s now - ts) / 1000)%Q.
Proof.
  intros Hp Hplay Hts Hnz.
  unfold syncedPosOf, startServerTsOf. rewrite (positionOf_number _ _ Hp).
  unfold field at 1. rewrite Hts; simpl default. cbv beta iota.
  rewrite Hplay, (truthy_num_nonzero _ Hnz). reflexivity.
Qed.

(** C3, as the code has it: for a record with a numeric [position], the
    position handed to the subscriber at server time [T = nowServerMs] is
    [position + (T - startServerTs) / 1000] when [isPlaying] is truthy and
    [startServerTs] is a number other than 0, and [position] in every other
    case (not playing, [startServerTs] absent or not a number, or equal to
    0); this holds at every [T]. *)
Theorem syncedPos_formula (s : Service) (now : Z) (raw : gmap string JsVal)
    (p : Q) :
  raw !! "position" = Some (JNum p) →
  onValue s now (Some raw)
    = State raw (syncedPosOf s now raw) (isLocalOf s raw) ∧
  (∀ ts, truthy (field raw "isPlaying") = true →
         raw !! "startServerTs" = Some (JNum ts) → ¬ (ts == 0)%Q →
         syncedPosOf s now raw = (p + (nowServerMs s now - ts) / 1000)%Q) ∧
  (truthy (field raw "isPlaying") = false → syncedPosOf s now raw = p) ∧
  ((∀ ts, raw !! "startServerTs" ≠ Some (JNum ts)) →
   syncedPosOf s now raw = p) ∧
  (∀ ts, raw !! "startServerTs" = Some (JNum ts) → (ts == 0)%Q →
         syncedPosOf s now raw = p).
Proof.
  intros Hp.
  split; [reflexivity |].
  split; [intros ts; by apply syncedPosOf_playing |].
  unfold syncedPosOf, startServerTsOf. rewrite (positionOf_number _ _ Hp).
  split; [| split].
  - intros Hplay. rewrite Hplay.
    by destruct (field raw "startServerTs").
  - intros Hts. unfold field at 1.
    destruct (raw !! "startServerTs") as [[] |] eqn:E; simpl; try reflexivity.
    by destruct (Hts q).
  - intros ts Hts Hz. unfold field at 1. rewrite Hts; simpl default.
    cbv beta iota. rewrite (truthy_num_zero _ Hz), andb_false_r. reflexivity.
Qed.

Lemma syncedPos_formula_witness :
  Sample.roomRecord !! "position" = Some (JNum 0) ∧
  (syncedPosOf Sample.idle 1700000010040 Sample.roomRecord == 10)%Q.
Proof.
  split; [reflexivity |].
  destruct (syncedPos_formula Sample.idle 1700000010040 Sample.roomRecord 0
              eq_refl) as (_ & Hplaying & _).
  rewrite (Hplaying (inject_Z 1700000000040) eq_refl eq_refl);
    [reflexivity | discriminate].
Defined.

(** C3 as worded fails where [startServerTs] is the number 0: the record is
    playing and its [startServerTs] is a number, yet at [T = 10000 >=
    updatedAt] the subscriber is handed 30 and not 30 + (10000 - 0) / 1000. *)
Lemma syncedPos_zero_start_counterexample :
  truthy (field Sample.zeroStart "isPlaying") = true ∧
  Sample.zeroStart !! "startServerTs" = Some (JNum 0) ∧
  Sample.zeroStart !! "position" = Some (JNum 30) ∧
  Sample.zeroStart !! "updatedAt" = Some (JNum 0) ∧
  (0 <= nowServerMs Sample.idle 10000)%Q ∧
  (syncedPosOf Sample.idle 10000 Sample.zeroStart == 30)%Q ∧
  ¬ (syncedPosOf Sample.idle 10000 Sample.zeroStart
       == 30 + (nowServerMs Sample.idle 10000 - 0) / 1000)%Q.
Proof.
  repeat split; try reflexivity; try discriminate.
Qed.

(** ** The seek throttle *)

Lemma seek_throttled e roomId userId position playing s d :
  seekThrottle s = true →
  seek e roomId userId position playing s d = (Returned tt, s, d).
Proof. intros Hthr. unfold seek. by rewrite Hthr. Qed.

Lemma seek_first e roomId userId position playing s d current :
  seekThrottle s = false →
  get (playbackRef roomId) d = Some current →
  seek e roomId userId position playing s d
    = (Returned tt,
       withOpId (withThrottle s true) (generateOpId e),
       update (playbackRef roomId)
         (seekPayload e userId position playing (generateOpId e) current) d).
Proof. intros Hthr Hget. unfold seek. by rewrite Hthr, Hget. Qed.

Lemma runClient_cons roomId userId ev evs sd :
  runClient roomId userId (ev :: evs) sd
    = runClient roomId userId evs (clientStep roomId userId sd ev).
Proof. reflexivity. Qed.

Lemma clientStep_throttled roomId userId e position playing s d :
  seekThrottle s = true →
  clientStep roomId userId (s, d) (SeekIntent e position playing) = (s, d).
Proof. intros Hthr. simpl. by rewrite seek_throttled. Qed.

Lemma clientStep_first roomId userId e position playing s d current :
  seekThrottle s = false →
  get (playbackRef roomId) d = Some current →
  clientStep roomId userId (s, d) (SeekIntent e position playing)
    = (withOpId (withThrottle s true) (generateOpId e),
       update (playbackRef roomId)
         (seekPayload e userId position playing (generateOpId e) current) d).
Proof.
  intros Hthr Hget. simpl. by rewrite (seek_first _ _ _ _ _ _ _ current).
Qed.

Lemma clientStep_first_absent roomId userId e position playing s d :
  seekThrottle s = false →
  get (playbackRef roomId) d = None →
  clientStep roomId userId (s, d) (SeekIntent e position playing)
    = (withThrottle s true, d).
Proof. intros Hthr Hget. simpl. unfold seek. by rewrite Hthr, Hget. Qed.

(** While the timer is pending, any number of further intents is dropped. *)
Lemma runClient_throttled roomId userId evs s d :
  seekThrottle s = true →
  Forall (λ ev, ev ≠ ThrottleTimeout) evs →
  runClient roomId userId evs (s, d) = (s, d).
Proof.
  intros Hthr Hevs. induction Hevs as [| ev evs Hev _ IH]; [reflexivity |].
  rewrite runClient_cons. destruct ev as [e p b |]; [| done].
  by rewrite clientStep_throttled.
Qed.

(** C4, as the code has it: of three seek intents issued by one client
    while the throttle timer armed by the first is still pending, exactly one
    write reaches the store when the record exists, and it carries the
    position of the FIRST intent; the two later intents are dropped, not
    queued.  When the room has no record, none of them writes. *)
Theorem seek_throttle_first_wins (roomId userId : string) (e1 e2 e3 : Env)
    (p1 p2 p3 : Q) (b1 b2 b3 : bool) (s : Service) (d : Database) :
  seekThrottle s = false →
  let run := runClient roomId userId
               [SeekIntent e1 p1 b1; SeekIntent e2 p2 b2; SeekIntent e3 p3 b3]
               (s, d) in
  (∀ current, get (playbackRef roomId) d = Some current →
     writes run.2 =
       (writes d ++ [WUpdate (playbackRef roomId)
                       (seekPayload e1 userId p1 b1 (generateOpId e1) current)])%list ∧
     ∃ n, get (playbackRef roomId) run.2 = Some n ∧
          n !! "position" = Some (JNum p1)) ∧
  (get (playbackRef roomId) d = None → run.2 = d) ∧
  seekThrottle run.1 = true.
Proof.
  intros Hthr run. subst run. rewrite runClient_cons.
  assert (Hrest : Forall (λ ev, ev ≠ ThrottleTimeout)
                    [SeekIntent e2 p2 b2; SeekIntent e3 p3 b3]).
  { by repeat constructor. }
  destruct (get (playbackRef roomId) d) as [current |] eqn:Hget.
  - rewrite (clientStep_first _ _ _ _ _ _ _ current Hthr Hget).
    rewrite runClient_throttled by (reflexivity || exact Hrest).
    split; [| split; [discriminate | reflexivity]].
    intros c [= <-]. split; [reflexivity |].
    exists (merge (seekPayload e1 userId p1 b1 (generateOpId e1) current) current).
    assert (Hpos : merge (seekPayload e1 userId p1 b1 (generateOpId e1) current)
                     current !! "position" = Some (JNum p1)).
    { destruct b1; node_lookup. }
    split; [| exact Hpos]. simpl snd.
    rewrite get_update_eq; rewrite Hget; simpl default; [reflexivity |].
    by apply (lookup_Some_non_empty _ "position" (JNum p1)).
  - rewrite (clientStep_first_absent _ _ _ _ _ _ _ Hthr Hget).
    rewrite runClient_throttled by (reflexivity || exact Hrest).
    split; [discriminate |]. split; reflexivity.
Qed.

Lemma seek_throttle_first_wins_witness :
  seekThrottle Sample.aliceService = false ∧
  ∃ n,
    get (playbackRef "r1")
      (runClient "r1" "alice"
         [SeekIntent (Sample.env 1700000001000 "aaaaaa") 10 true;
          SeekIntent (Sample.env 1700000001050 "bbbbbb") 12 true;
          SeekIntent (Sample.env 1700000001100 "cccccc") 15 true]
         (Sample.aliceService, Sample.roomDb)).2 = Some n ∧
    n !! "position" = Some (JNum 10).
Proof.
  split; [reflexivity |].
  destruct (seek_throttle_first_wins "r1" "alice"
              (Sample.env 1700000001000 "aaaaaa")
              (Sample.env 1700000001050 "bbbbbb")
              (Sample.env 1700000001100 "cccccc")
              10 12 15 true true true Sample.aliceService Sample.roomDb
              eq_refl) as (Hwrite & _ & _).
  destruct (Hwrite _ get_roomDb) as (_ & n & Hn & Hpos).
  exists n. split; [exact Hn | exact Hpos].
Defined.

(** C4 as worded fails: the three intents 10, 12, 15 issued inside the
    window leave one write in the log, and its [position] is 10, not 15. *)
Lemma seek_coalescing_counterexample :
  let d' := (runClient "r1" "alice"
               [SeekIntent (Sample.env 1700000001000 "aaaaaa") 10 true;
                SeekIntent (Sample.env 1700000001050 "bbbbbb") 12 true;
                SeekIntent (Sample.env 1700000001100 "cccccc") 15 true]
               (Sample.aliceService, Sample.roomDb)).2 in
  writes d' =
    (writes Sample.roomDb ++
       [WUpdate (playbackRef "r1")
          (seekPayload (Sample.env 1700000001000 "aaaaaa") "alice" 10 true
             "1700000001000-aaaaaa" Sample.roomRecord)])%list ∧
  field (default ∅ (get (playbackRef "r1") d')) "position" = JNum 10 ∧
  ¬ (10 == 15)%Q.
Proof.
  split; [reflexivity |]. split; [reflexivity | discriminate].
Qed.

(** ** The reconciler *)

Import MusicPlayer.






(** What a remote apply leaves whatever the current song is. *)
Lemma remoteApply_common player state pos st :
  lastAppliedVersion (remoteApply player state pos st) = lastAppliedVersion st ∧
  isSyncing (remoteApply player state pos st) = true ∧
  isPlaying (remoteApply player state pos st) = field state "isPlaying" ∧
  seeks (remoteApply player state pos st)
  = seeks (remoteBody player state pos st) ∧
  hasInitialSynced (remoteApply player state pos st)
  = hasInitialSynced (remoteBody player state pos st) ∧
  volume (remoteApply player state pos st)
  = volume (remoteBody player state pos st).
Proof.
  unfold remoteApply, songUpdater. simpl.
  by destruct (isSameSong (currentSong st) state).
Qed.











(** C2, as the code has it: an update whose [opId] is the string last
    issued by the observing client never changes anything but the applied
    version: song, transport flag, displayed time, volume, player key and
    pending position are kept and no [seekTo] is issued.  The applied
    version becomes the update's version unless the update is stale
    (version below the applied one), in which case the provider is left
    exactly as it was. *)
Theorem echo_touches_only_version (svc : Service) (now : Z)
    (player : PlayerRef) (state : gmap string JsVal) (o : string)
    (st : Provider) :
  state !! "opId" = Some (JStr o) →
  lastUserOpId svc = Some o →
  sameMedia st (syncCallback player (onValue svc now (Some state)) st) ∧
  (¬ (versionOf state < lastAppliedVersion st)%Q →
   lastAppliedVersion (syncCallback player (onValue svc now (Some state)) st)
     = versionOf state) ∧
  ((versionOf state < lastAppliedVersion st)%Q →
   syncCallback player (onValue svc now (Some state)) st = st).
Proof.
  intros Hop Hlast.
  assert (Hlocal : isLocalOf svc state = true).
  { unfold isLocalOf, field. rewrite Hop, Hlast. simpl. apply String.eqb_refl. }
  unfold onValue, syncCallback. rewrite Hlocal.
  destruct (Qlt_le_dec (versionOf state) (lastAppliedVersion st)) as [Hlt | Hle].
  - split; [by repeat split |]. split; [by intros [] | reflexivity].
  - split; [by repeat split |]. split; [reflexivity |].
    intros Hlt. exfalso. by apply (Qlt_not_le _ _ Hlt).
Qed.

Lemma echo_touches_only_version_witness :
  Sample.record "song1" false 55 6 "op-3" JNull !! "opId"
    = Some (JStr "op-3") ∧
  lastUserOpId Sample.issuerOfOp3 = Some "op-3" ∧
  seeks (syncCallback (Player (Some 0%Q))
           (onValue Sample.issuerOfOp3 1700000009000
              (Some (Sample.record "song1" false 55 6 "op-3" JNull)))
           Sample.atVersion5) = seeks Sample.atVersion5.
Proof.
  split; [reflexivity |]. split; [reflexivity |].
  apply (echo_touches_only_version Sample.issuerOfOp3 1700000009000
           (Player (Some 0%Q))
           (Sample.record "song1" false 55 6 "op-3" JNull) "op-3"
           Sample.atVersion5 eq_refl eq_refl).
Defined.

(** C2 as worded fails for a stale echo: the client has applied version 5,
    its own operation ["op-3"] of version 3 arrives late, and the applied
    version stays 5 instead of becoming 3. *)
Lemma stale_echo_counterexample :
  let state := Sample.record "song1" false 55 3 "op-3" JNull in
  state !! "opId" = Some (JStr "op-3") ∧
  lastUserOpId Sample.issuerOfOp3 = Some "op-3" ∧
  versionOf state = 3%Q ∧
  lastAppliedVersion
    (syncCallback (Player (Some 0%Q))
       (onValue Sample.issuerOfOp3 1700000009000 (Some state))
       Sample.atVersion5) = 5%Q ∧
  ¬ (5 == 3)%Q.
Proof.
  repeat split; try reflexivity. discriminate.
Qed.

(** C9, as the code has it: once the room's playback record is removed, the
    listener installed by [subscribe] invokes the callback with a null
    state, and the provider's callback returns at once: the provider is
    left exactly as it was (playback is not stopped, no seek is issued,
    nothing is surfaced). *)
Theorem null_state_is_ignored (svc : Service) (now : Z) (roomId : string)
    (d : Database) (player : PlayerRef) (st : Provider) :
  get (playbackRef roomId) (remove (playbackRef roomId) d) = None ∧
  onValue svc now (get (playbackRef roomId) (remove (playbackRef roomId) d))
    = NoState ∧
  syncCallback player
    (onValue svc now (get (playbackRef roomId) (remove (playbackRef roomId) d)))
    st = st.
Proof.
  assert (Hgone : get (playbackRef roomId) (remove (playbackRef roomId) d)
                  = None).
  { unfold get, remove; simpl. apply lookup_delete_eq. }
  rewrite Hgone. by repeat split.
Qed.

(** C9 as worded fails: a client playing in room ["r1"] whose record is
    removed is still playing after the null delivery. *)
Lemma room_deleted_counterexample :
  let d' := remove (playbackRef "r1") Sample.roomDb in
  let st' := syncCallback (Player (Some 42%Q))
               (onValue Sample.idle 1700000009000 (get (playbackRef "r1") d'))
               Sample.atVersion5 in
  onValue Sample.idle 1700000009000 (get (playbackRef "r1") d') = NoState ∧
  truthy (isPlaying Sample.atVersion5) = true ∧
  truthy (isPlaying st') = true ∧
  st' = Sample.atVersion5.
Proof.
  repeat split; reflexivity.
Qed.

(** ** The late joiner *)





(** ** The room queue *)

Import RoomQueue.

Lemma NoDup_fst_inj {A B} (l : list (A * B)) :
  NoDup l.*1 → ∀ e1 e2, e1 ∈ l → e2 ∈ l → e1.1 = e2.1 → e1 = e2.
Proof.
  induction l as [| e l IH]; intros Hnd e1 e2 H1 H2 Heq.
  - by apply elem_of_nil in H1.
  - simpl in Hnd. apply NoDup_cons in Hnd as [Hnotin Hnd].
    apply elem_of_cons in H1 as [-> | H1]; apply elem_of_cons in H2 as [-> | H2].
    + reflexivity.
    + exfalso. apply Hnotin. rewrite Heq. by apply list_elem_of_fmap_2.
    + exfalso. apply Hnotin. rewrite <- Heq. by apply list_elem_of_fmap_2.
    + by apply IH.
Qed.

Lemma StronglySorted_weaken {A} (R R' : relation A) l :
  (∀ x y, R x y → R' x y) → StronglySorted R l → StronglySorted R' l.
Proof.
  intros Himp. induction 1 as [| x l _ IH Hall]; constructor; [exact IH |].
  eapply Forall_impl; [exact Hall | auto].
Qed.

Section QueueOrder.

Variable localeCompare : string → string → Z.

(** The collation is taken to be a total order on item ids. *)
Hypothesis localeCompare_total :
  ∀ a b, (localeCompare a b ≤ 0 ∨ localeCompare b a ≤ 0)%Z.
Hypothesis localeCompare_trans :
  ∀ a b c, (localeCompare a b ≤ 0 → localeCompare b c ≤ 0 →
            localeCompare a c ≤ 0)%Z.
Hypothesis localeCompare_antisym :
  ∀ a b, (localeCompare a b ≤ 0)%Z → (localeCompare b a ≤ 0)%Z → a = b.

(** The comparator of the source orders two items as the lexicographic
    order on their keys does. *)
Lemma before_keyLe a b :
  before localeCompare a b ↔ keyLe localeCompare a b.
Proof.
  unfold before, keyLe, compareItems, sortKey; simpl.
  set (ta := default 0%Q (addedAt a)). set (tb := default 0%Q (addedAt b)).
  destruct (Qeq_bool ta tb) eqn:E; simpl.
  - apply Qeq_bool_iff in E.
    change 0%Q with (inject_Z 0). rewrite <- Zle_Qle. split.
    + intros Hle. right. by split.
    + intros [Hlt | [_ Hle]]; [| exact Hle]. exfalso. lra.
  - apply Qeq_bool_neq in E. split.
    + intros Hle. left. lra.
    + intros [Hlt | [Heq _]]; [lra | contradiction].
Qed.

Lemma keyLe_total a b : keyLe localeCompare a b ∨ keyLe localeCompare b a.
Proof.
  unfold keyLe.
  destruct (Q_dec (sortKey a).1 (sortKey b).1) as [[Hlt | Hgt] | Heq].
  - left. by left.
  - right. by left.
  - destruct (localeCompare_total (sortKey a).2 (sortKey b).2).
    + left. right. by split.
    + right. right. split; [by symmetry | done].
Qed.

Lemma keyLe_trans a b c :
  keyLe localeCompare a b → keyLe localeCompare b c → keyLe localeCompare a c.
Proof.
  unfold keyLe. intros [Hab | [Hab Lab]] [Hbc | [Hbc Lbc]].
  - left. lra.
  - left. lra.
  - left. lra.
  - right. split; [lra |]. by eapply localeCompare_trans.
Qed.

Lemma keyLe_antisym a b :
  keyLe localeCompare a b → keyLe localeCompare b a → itemId a = itemId b.
Proof.
  unfold keyLe. intros [Hab | [Hab Lab]] [Hba | [Hba Lba]]; try lra.
  by apply localeCompare_antisym.
Qed.

#[local] Instance before_total : Total (before localeCompare).
Proof.
  intros a b. destruct (keyLe_total a b); [left | right]; by apply before_keyLe.
Qed.

#[local] Instance before_trans : Transitive (before localeCompare).
Proof.
  intros a b c Hab Hbc. apply before_keyLe.
  apply (keyLe_trans a b c); by apply before_keyLe.
Qed.

Lemma sortItems_sorted items :
  StronglySorted (keyLe localeCompare) (sortItems localeCompare items).
Proof.
  apply (StronglySorted_weaken (before localeCompare)).
  - intros x y. apply before_keyLe.
  - unfold sortItems. apply StronglySorted_merge_sort; apply _.
Qed.

Lemma sortItems_perm items : sortItems localeCompare items ≡ₚ items.
Proof. apply merge_sort_Permutation. Qed.

(** Items built from entries with distinct keys are told apart by their
    sort keys. *)
Lemma items_antisym (entries : list (string * JsVal)) x y :
  NoDup entries.*1 →
  x ∈ toItem <$> entries → y ∈ toItem <$> entries →
  keyLe localeCompare x y → keyLe localeCompare y x → x = y.
Proof.
  intros Hnd Hx Hy Hxy Hyx.
  apply list_elem_of_fmap in Hx as (ex & -> & Hex).
  apply list_elem_of_fmap in Hy as (ey & -> & Hey).
  f_equal. apply (NoDup_fst_inj entries Hnd); try done.
  apply (keyLe_antisym _ _ Hxy Hyx).
Qed.

Lemma sortItems_order_independent (entries entries' : list (string * JsVal)) :
  NoDup entries.*1 → entries' ≡ₚ entries →
  sortItems localeCompare (toItem <$> entries')
    = sortItems localeCompare (toItem <$> entries).
Proof.
  intros Hnd Hperm.
  apply (StronglySorted_unique_strong (keyLe localeCompare)).
  - intros x y Hx Hy. rewrite sortItems_perm in Hx, Hy.
    rewrite Hperm in Hx. by apply (items_antisym entries).
  - apply sortItems_sorted.
  - apply sortItems_sorted.
  - rewrite !sortItems_perm. by rewrite Hperm.
Qed.

Lemma sortItems_head_least items m rest :
  sortItems localeCompare items = m :: rest →
  ∀ x, x ∈ items → keyLe localeCompare m x.
Proof.
  intros Hsort x Hx.
  pose proof (sortItems_sorted items) as Hsorted. rewrite Hsort in Hsorted.
  apply StronglySorted_inv in Hsorted as [_ Hall].
  rewrite <- sortItems_perm, Hsort in Hx.
  apply elem_of_cons in Hx as [-> | Hx].
  - destruct (keyLe_total m m); done.
  - rewrite Forall_forall in Hall. by apply Hall.
Qed.

(** C7, as the code has it: under one collation that is a total order on
    item ids, [getFirstItem] returns nothing for an absent or empty queue
    and otherwise the item whose key [(addedAt ?? 0, itemId)] is least in
    the lexicographic order (time first, ties broken by that collation of
    the item ids, which need not be their lexical order), strictly below
    the key of every other item; the list pushed to subscribers is a
    permutation of the items sorted by that same order and its head is what
    [getFirstItem] returns; and neither depends on the order in which the
    entries of the snapshot are enumerated, so that two reads of the same
    data under the same collation agree. *)
Theorem queue_order_deterministic (entries : list (string * JsVal)) :
  NoDup entries.*1 →
  getFirstItemOf localeCompare None = None ∧
  onQueueValue localeCompare None = [] ∧
  (entries = [] → getFirstItemOf localeCompare (Some entries) = None) ∧
  (entries ≠ [] →
   ∃ m, getFirstItemOf localeCompare (Some entries) = Some m ∧
        m ∈ toItem <$> entries ∧
        (∀ x, x ∈ toItem <$> entries → keyLe localeCompare m x) ∧
        (∀ x, x ∈ toItem <$> entries → x ≠ m → ¬ keyLe localeCompare x m)) ∧
  onQueueValue localeCompare (Some entries) ≡ₚ toItem <$> entries ∧
  StronglySorted (keyLe localeCompare)
    (onQueueValue localeCompare (Some entries)) ∧
  head (onQueueValue localeCompare (Some entries))
    = getFirstItemOf localeCompare (Some entries) ∧
  (∀ entries', entries' ≡ₚ entries →
     onQueueValue localeCompare (Some entries')
       = onQueueValue localeCompare (Some entries) ∧
     getFirstItemOf localeCompare (Some entries')
       = getFirstItemOf localeCompare (Some entries)).
Proof.
  intros Hnd. simpl.
  split; [reflexivity |]. split; [reflexivity |].
  split; [by intros -> |].
  split.
  { intros Hne.
    destruct (sortItems localeCompare (toItem <$> entries)) as [| m rest] eqn:Hs.
    { exfalso. apply Hne.
      apply fmap_nil_inv with (f := toItem), Permutation_nil_r.
      by rewrite <- sortItems_perm, Hs. }
    assert (Hm : m ∈ toItem <$> entries).
    { rewrite <- sortItems_perm, Hs. by left. }
    exists m. split; [reflexivity |]. split; [exact Hm |].
    split; [by apply (sortItems_head_least _ _ rest Hs) |].
    intros x Hx Hne' Hxm. apply Hne'.
    apply (items_antisym entries); try done.
    by apply (sortItems_head_least _ _ rest Hs). }
  split; [apply sortItems_perm |].
  split; [apply sortItems_sorted |].
  split; [reflexivity |].
  intros entries' Hperm.
  by rewrite (sortItems_order_independent entries entries').
Qed.

End QueueOrder.

(** Comparison by code units is a total order, so the hypotheses on the
    collation can be met. *)
Lemma codeUnitCompare_le a b :
  (codeUnitCompare a b ≤ 0)%Z ↔ String.compare a b ≠ Gt.
Proof.
  unfold codeUnitCompare. destruct (String.compare a b); split; try done; lia.
Qed.

Lemma codeUnitCompare_total a b :
  (codeUnitCompare a b ≤ 0 ∨ codeUnitCompare b a ≤ 0)%Z.
Proof.
  rewrite !codeUnitCompare_le.
  pose proof (String_as_OT.cmp_antisym a b) as Hanti.
  unfold String_as_OT.cmp in Hanti.
  destruct (String.compare a b); [by left | by left |].
  right. by destruct (String.compare b a).
Qed.

Lemma codeUnitCompare_antisym a b :
  (codeUnitCompare a b ≤ 0)%Z → (codeUnitCompare b a ≤ 0)%Z → a = b.
Proof.
  rewrite !codeUnitCompare_le. intros Hab Hba.
  pose proof (String_as_OT.cmp_antisym a b) as Hanti.
  unfold String_as_OT.cmp in Hanti.
  apply String_as_OT.cmp_eq. unfold String_as_OT.cmp.
  destruct (String.compare a b); [reflexivity | | done].
  by destruct (String.compare b a).
Qed.

Lemma codeUnitCompare_trans a b c :
  (codeUnitCompare a b ≤ 0)%Z → (codeUnitCompare b c ≤ 0)%Z →
  (codeUnitCompare a c ≤ 0)%Z.
Proof.
  rewrite !codeUnitCompare_le. intros Hab Hbc.
  destruct (String.compare a b) eqn:Eab; [| | done].
  - apply String_as_OT.cmp_eq in Eab as ->. exact Hbc.
  - destruct (String.compare b c) eqn:Ebc; [| | done].
    + apply String_as_OT.cmp_eq in Ebc as <-. by rewrite Eab.
    + apply String_as_OT.cmp_lt in Eab, Ebc.
      pose proof (String_as_OT.lt_trans _ _ _ Eab Ebc) as Hac.
      apply String_as_OT.cmp_lt in Hac. unfold String_as_OT.cmp in Hac.
      by rewrite Hac.
Qed.

Lemma queue_order_deterministic_witness :
  ∃ m, getFirstItem codeUnitCompare "r1" Sample.queueDb = Some m ∧
       itemId m = "-Nc" ∧
       (map itemId
          (onQueueValue codeUnitCompare (queueVal "r1" Sample.queueDb))
        = ["-Nc"; "-Na"; "-Nb"]) ∧
       ∀ x, x ∈ toItem <$> map_to_list
                  (default ∅ (get (queueRef "r1") Sample.queueDb)) →
            keyLe codeUnitCompare m x.
Proof.
  pose proof (NoDup_fst_map_to_list
                (default ∅ (get (queueRef "r1") Sample.queueDb))) as Hnd.
  destruct (queue_order_deterministic codeUnitCompare codeUnitCompare_total
              codeUnitCompare_trans codeUnitCompare_antisym _ Hnd)
    as (_ & _ & _ & Hfirst & _).
  destruct Hfirst as (m & Hm & _ & Hleast & _).
  { vm_compute. discriminate. }
  exists m. split; [exact Hm |].
  split; [| split; [| exact Hleast]].
  - vm_compute in Hm. by injection Hm as <-.
  - vm_compute. reflexivity.
Defined.

(** The case-folding collation is a total order as well. *)
Lemma caseFoldCompare_le a b :
  (caseFoldCompare a b ≤ 0)%Z ↔
  String.compare (lowerCase a) (lowerCase b) = Lt ∨
  (String.compare (lowerCase a) (lowerCase b) = Eq ∧
   (codeUnitCompare b a ≤ 0)%Z).
Proof.
  unfold caseFoldCompare.
  destruct (String.compare (lowerCase a) (lowerCase b)); split.
  - intros H. right. by split.
  - intros [H | [_ H]]; [discriminate | exact H].
  - intros _. by left.
  - intros _. lia.
  - intros H. lia.
  - intros [H | [H _]]; discriminate.
Qed.

Lemma compare_flip (a b : string) :
  String.compare b a = CompOpp (String.compare a b).
Proof. apply (String_as_OT.cmp_antisym b a). Qed.

Lemma caseFoldCompare_total a b :
  (caseFoldCompare a b ≤ 0 ∨ caseFoldCompare b a ≤ 0)%Z.
Proof.
  rewrite !caseFoldCompare_le.
  rewrite (compare_flip (lowerCase a) (lowerCase b)).
  destruct (String.compare (lowerCase a) (lowerCase b)); simpl.
  - destruct (codeUnitCompare_total b a); [left | right]; right; by split.
  - left. by left.
  - right. by left.
Qed.

Lemma caseFoldCompare_antisym a b :
  (caseFoldCompare a b ≤ 0)%Z → (caseFoldCompare b a ≤ 0)%Z → a = b.
Proof.
  rewrite !caseFoldCompare_le.
  rewrite (compare_flip (lowerCase a) (lowerCase b)).
  destruct (String.compare (lowerCase a) (lowerCase b)); simpl;
    intros [H1 | [H1 L1]] [H2 | [H2 L2]]; try discriminate.
  by apply codeUnitCompare_antisym.
Qed.

Lemma compare_Eq (a b : string) : String.compare a b = Eq → a = b.
Proof. apply String_as_OT.cmp_eq. Qed.

Lemma compare_Lt_trans (a b c : string) :
  String.compare a b = Lt → String.compare b c = Lt →
  String.compare a c = Lt.
Proof.
  intros Hab Hbc.
  apply String_as_OT.cmp_lt in Hab, Hbc.
  by apply String_as_OT.cmp_lt, (String_as_OT.lt_trans _ _ _ Hab Hbc).
Qed.

Lemma caseFoldCompare_trans a b c :
  (caseFoldCompare a b ≤ 0)%Z → (caseFoldCompare b c ≤ 0)%Z →
  (caseFoldCompare a c ≤ 0)%Z.
Proof.
  rewrite !caseFoldCompare_le.
  intros [Hab | [Hab Lab]] [Hbc | [Hbc Lbc]].
  - left. by apply (compare_Lt_trans _ (lowerCase b)).
  - left. apply compare_Eq in Hbc. by rewrite <- Hbc.
  - left. apply compare_Eq in Hab. by rewrite Hab.
  - right. apply compare_Eq in Hab, Hbc. split.
    + rewrite Hab, Hbc. apply String_as_OT.cmp_eq. reflexivity.
    + by apply (codeUnitCompare_trans c b a).
Qed.

(** C7 as worded fails: ties are broken by the platform's collation, not by
    the lexical order of the item ids, and reads under different
    collations disagree.  Two items added at the same instant under the
    ids ["-Na"] and ["-NB"]: in lexical order ["-NB"] comes first (code
    unit 66 is below 97); under a collation that, as the platform's default
    one, compares letters without regard to case first, ["-Na"] comes
    first.  Both collations are total orders on item ids; [getFirstItem]
    and the list pushed to subscribers follow the collation. *)
Lemma queue_collation_counterexample :
  ((∀ a b, (caseFoldCompare a b ≤ 0 ∨ caseFoldCompare b a ≤ 0)%Z) ∧
   (∀ a b c, (caseFoldCompare a b ≤ 0 → caseFoldCompare b c ≤ 0 →
              caseFoldCompare a c ≤ 0)%Z) ∧
   (∀ a b, (caseFoldCompare a b ≤ 0)%Z → (caseFoldCompare b a ≤ 0)%Z →
           a = b)) ∧
  (codeUnitCompare "-NB" "-Na" < 0)%Z ∧
  (caseFoldCompare "-Na" "-NB" < 0)%Z ∧
  addedAt <$> onQueueValue codeUnitCompare
                (queueVal "r1" Sample.mixedCaseQueueDb)
  = [Some 1700000000500%Q; Some 1700000000500%Q] ∧
  itemId <$> getFirstItem codeUnitCompare "r1" Sample.mixedCaseQueueDb
  = Some "-NB" ∧
  itemId <$> getFirstItem caseFoldCompare "r1" Sample.mixedCaseQueueDb
  = Some "-Na" ∧
  itemId <$> onQueueValue codeUnitCompare
               (queueVal "r1" Sample.mixedCaseQueueDb)
  = ["-NB"; "-Na"] ∧
  itemId <$> onQueueValue caseFoldCompare
               (queueVal "r1" Sample.mixedCaseQueueDb)
  = ["-Na"; "-NB"].
Proof.
  split.
  { split; [exact caseFoldCompare_total |].
    split; [exact caseFoldCompare_trans | exact caseFoldCompare_antisym]. }
  repeat split; vm_compute; reflexivity.
Qed.

(** * Further properties of the modelled code *)

Import RoomSession.

(** ** Transport operations on an existing record *)

Lemma get_update_record path (p : Payload) d current k v :
  get path d = Some current →
  merge p current !! k = Some v →
  get path (update path p d) = Some (merge p current).
Proof.
  intros Hget Hk. rewrite get_update_eq; rewrite Hget; simpl default;
    [reflexivity |].
  by apply (lookup_Some_non_empty _ k v).
Qed.

Lemma get_update_ne path path' (p : Payload) d :
  path ≠ path' → get path' (update path p d) = get path' d.
Proof. intros Hne. unfold update. by apply get_put_ne. Qed.

Lemma payload_keys_pause e userId position opId current :
  (pausePayload e userId position opId current).*1 = transportKeys.
Proof. reflexivity. Qed.

Lemma payload_keys_resume e userId position opId current :
  (resumePayload e userId position opId current).*1 = transportKeys.
Proof. reflexivity. Qed.

Lemma payload_keys_seek e userId position playing opId current :
  (seekPayload e userId position playing opId current).*1
  ≡ₚ transportKeys.
Proof.
  unfold seekPayload, transportKeys; simpl. destruct playing; simpl;
    apply perm_swap.
Qed.

Lemma exec_pause e roomId userId position s d current :
  get (playbackRef roomId) d = Some current →
  exec e roomId userId (CPause position) (s, d)
  = (withOpId s (generateOpId e),
     update (playbackRef roomId)
       (pausePayload e userId position (generateOpId e) current) d).
Proof. intros Hget. simpl. unfold pause. by rewrite Hget. Qed.

Lemma exec_resume e roomId userId position s d current :
  get (playbackRef roomId) d = Some current →
  exec e roomId userId (CResume position) (s, d)
  = (withOpId s (generateOpId e),
     update (playbackRef roomId)
       (resumePayload e userId position (generateOpId e) current) d).
Proof. intros Hget. simpl. unfold resume. by rewrite Hget. Qed.

Lemma exec_seek e roomId userId position playing s d current :
  get (playbackRef roomId) d = Some current →
  seekThrottle s = false →
  exec e roomId userId (CSeek position playing) (s, d)
  = (withOpId (withThrottle s true) (generateOpId e),
     update (playbackRef roomId)
       (seekPayload e userId position playing (generateOpId e) current) d).
Proof.
  intros Hget Hthr. simpl. by rewrite (seek_first _ _ _ _ _ _ _ current).
Qed.

Lemma exec_seek_throttled e roomId userId position playing s d :
  seekThrottle s = true →
  exec e roomId userId (CSeek position playing) (s, d) = (s, d).
Proof. intros Hthr. simpl. by rewrite seek_throttled. Qed.

Lemma exec_playSong e roomId userId songId songMeta volume s d :
  exec e roomId userId (CPlaySong songId songMeta volume) (s, d)
  = (withOpId s (generateOpId e),
     set (playbackRef roomId)
       (playSongPayload e userId songId songMeta volume (generateOpId e)
          (get (playbackRef roomId) d)) d).
Proof. reflexivity. Qed.

(** X1: [pause], [resume] and [seek] merge into the record: every child they
    do not name, among them [songId], [songMeta] and [volume], is kept as it
    was, and no other path of the database is touched. *)
Theorem transport_ops_keep_track (e : Env) (roomId userId : string)
    (c : Command) (s : Service) (d : Database)
    (current : gmap string JsVal) :
  get (playbackRef roomId) d = Some current →
  isTransport c = true →
  ∃ r,
    get (playbackRef roomId) (exec e roomId userId c (s, d)).2 = Some r ∧
    (∀ k, k ∉ transportKeys → r !! k = current !! k) ∧
    r !! "songId" = current !! "songId" ∧
    r !! "songMeta" = current !! "songMeta" ∧
    r !! "volume" = current !! "volume" ∧
    ∀ path', playbackRef roomId ≠ path' →
      get path' (exec e roomId userId c (s, d)).2 = get path' d.
Proof.
  intros Hget Htr.
  assert (Hgoal : ∃ r,
    get (playbackRef roomId) (exec e roomId userId c (s, d)).2 = Some r ∧
    (∀ k, k ∉ transportKeys → r !! k = current !! k) ∧
    ∀ path', playbackRef roomId ≠ path' →
      get path' (exec e roomId userId c (s, d)).2 = get path' d).
  { destruct c as [| position | position | position playing | |]; try done.
    - rewrite (exec_pause _ _ _ _ _ _ current Hget). simpl snd.
      eexists. split; [| split].
      + eapply (get_update_record _ _ _ _ "position"); [exact Hget |].
        node_lookup.
      + intros k Hk. apply merge_lookup_frame. by rewrite payload_keys_pause.
      + intros path' Hne. by apply get_update_ne.
    - rewrite (exec_resume _ _ _ _ _ _ current Hget). simpl snd.
      eexists. split; [| split].
      + eapply (get_update_record _ _ _ _ "position"); [exact Hget |].
        node_lookup.
      + intros k Hk. apply merge_lookup_frame. by rewrite payload_keys_resume.
      + intros path' Hne. by apply get_update_ne.
    - destruct (seekThrottle s) eqn:Hthr.
      + rewrite (exec_seek_throttled _ _ _ _ _ _ _ Hthr). by exists current.
      + rewrite (exec_seek _ _ _ _ _ _ _ current Hget Hthr). simpl snd.
        eexists. split; [| split].
        * eapply (get_update_record _ _ _ _ "position"); [exact Hget |].
          destruct playing; node_lookup.
        * intros k Hk. apply merge_lookup_frame.
          by rewrite payload_keys_seek.
        * intros path' Hne. by apply get_update_ne. }
  destruct Hgoal as (r & Hr & Hframe & Hother).
  exists r. split; [exact Hr |]. split; [exact Hframe |].
  repeat split; try exact Hother;
    apply Hframe; unfold transportKeys;
    rewrite !elem_of_cons, elem_of_nil; intuition discriminate.
Qed.

Lemma transport_ops_keep_track_witness :
  ∃ r,
    get (playbackRef "r1")
      (exec (Sample.env 1700000003000 "pp01aa") "r1" "bob" (CPause 3)
         (Sample.idle, Sample.roomDb)).2 = Some r ∧
    r !! "songId" = Some (JStr "song1") ∧
    r !! "volume" = Some (JNum 80).
Proof.
  destruct (transport_ops_keep_track (Sample.env 1700000003000 "pp01aa")
              "r1" "bob" (CPause 3) Sample.idle Sample.roomDb _
              get_roomDb eq_refl)
    as (r & Hr & _ & Hsong & _ & Hvol & _).
  exists r. split; [exact Hr |]. split; [rewrite Hsong | rewrite Hvol];
    reflexivity.
Defined.

(** ** What an operation leaves in the store *)

Lemma effective_record c s current :
  effective c s current = true → isTransport c = true → is_Some current.
Proof.
  destruct c; simpl; try done; intros H _.
  - by apply bool_decide_eq_true in H.
  - by apply bool_decide_eq_true in H.
  - apply andb_true_iff in H as [H _]. by apply bool_decide_eq_true in H.
Qed.

Lemma effective_seek_idle position playing s current :
  effective (CSeek position playing) s current = true →
  seekThrottle s = false.
Proof.
  simpl. intros H. apply andb_true_iff in H as [_ H].
  by destruct (seekThrottle s).
Qed.

Lemma exec_issued (e : Env) (roomId userId : string)
    (c : Command) (s : Service) (d : Database) (playing : bool)
    (position : Q) :
  targetOf c = Some (playing, position) →
  effective c s (get (playbackRef roomId) d) = true →
  ∃ r,
    get (playbackRef roomId) (exec e roomId userId c (s, d)).2 = Some r ∧
    issuedRecord (exec e roomId userId c (s, d)).1 userId playing position
      (nextVersion roomId d) (serverTs e) r.
Proof.
  intros Htarget Heff. unfold issuedRecord, nextVersion.
  destruct c as [songId songMeta volume | p | p | p b | |]; try done;
    injection Htarget as <- <-.
  - rewrite exec_playSong. simpl fst; simpl snd. eexists. split.
    { apply playSong_creates. }
    do 6 (split; [node_lookup |]).
    exists (generateOpId e). split; [node_lookup | reflexivity].
  - destruct (effective_record _ _ _ Heff eq_refl) as [current Hget].
    rewrite (exec_pause _ _ _ _ _ _ current Hget). simpl fst; simpl snd.
    rewrite Hget. eexists. split.
    { eapply (get_update_record _ _ _ _ "position"); [exact Hget |].
      node_lookup. }
    do 6 (split; [node_lookup |]).
    exists (generateOpId e). split; [node_lookup | reflexivity].
  - destruct (effective_record _ _ _ Heff eq_refl) as [current Hget].
    rewrite (exec_resume _ _ _ _ _ _ current Hget). simpl fst; simpl snd.
    rewrite Hget. eexists. split.
    { eapply (get_update_record _ _ _ _ "position"); [exact Hget |].
      node_lookup. }
    do 6 (split; [node_lookup |]).
    exists (generateOpId e). split; [node_lookup | reflexivity].
  - destruct (effective_record _ _ _ Heff eq_refl) as [current Hget].
    pose proof (effective_seek_idle _ _ _ _ Heff) as Hthr.
    rewrite (exec_seek _ _ _ _ _ _ _ current Hget Hthr).
    simpl fst; simpl snd. rewrite Hget. eexists. split.
    { eapply (get_update_record _ _ _ _ "position"); [exact Hget |].
      destruct b; node_lookup. }
    do 6 (split; [destruct b; node_lookup |]).
    exists (generateOpId e).
    split; [destruct b; node_lookup | reflexivity].
Qed.


(** X2: an operation that reaches its write ([playSong] always, [pause] and
    [resume] on an existing record, [seek] on an existing record while the
    throttle is idle) leaves a record with the requested transport flag and
    position, the version [getNextVersion] computed from the record read,
    the issuer as [initiator], the server timestamp as [updatedAt], a
    [startServerTs] equal to that timestamp when playing and absent when
    paused, and an [opId] that is the one the issuer's service remembers. *)
Theorem operation_writes_issued_record (e : Env) (roomId userId : string)
    (c : Command) (s : Service) (d : Database) (playing : bool)
    (position : Q) :
  targetOf c = Some (playing, position) →
  effective c s (get (playbackRef roomId) d) = true →
  ∃ r,
    get (playbackRef roomId) (exec e roomId userId c (s, d)).2 = Some r ∧
    issuedRecord (exec e roomId userId c (s, d)).1 userId playing position
      (nextVersion roomId d) (serverTs e) r.
Proof. apply exec_issued. Qed.

Lemma operation_writes_issued_record_witness :
  ∃ r,
    get (playbackRef "r1")
      (exec (Sample.env 1700000003000 "pp01aa") "r1" "bob" (CPause 3)
         (Sample.idle, Sample.roomDb)).2 = Some r ∧
    r !! "isPlaying" = Some (JBool false) ∧
    r !! "startServerTs" = None ∧
    r !! "initiator" = Some (JStr "bob").
Proof.
  destruct (operation_writes_issued_record
              (Sample.env 1700000003000 "pp01aa") "r1" "bob" (CPause 3)
              Sample.idle Sample.roomDb false 3 eq_refl eq_refl)
    as (r & Hr & Hplay & _ & _ & Hini & _ & Hts & _).
  exists r. by repeat split.
Defined.

(** ** Versions along a run *)

Lemma nextVersion_of_record roomId d r v :
  get (playbackRef roomId) d = Some r →
  r !! "version" = Some (JNum v) →
  nextVersion roomId d = (v + 1)%Q.
Proof.
  intros Hget Hv. unfold nextVersion. rewrite Hget.
  by apply getNextVersion_number.
Qed.

Lemma heartbeat_nextVersion e roomId userId ps d :
  nextVersion roomId (heartbeatTick e roomId userId ps d)
  = nextVersion roomId d.
Proof.
  destruct ps as [position playing]. unfold heartbeatTick.
  destruct (get (playbackRef roomId) d) as [current |] eqn:Hget;
    [| reflexivity].
  destruct (negb _); [reflexivity |].
  assert (Hv : merge (heartbeatPayload e position playing) current
                 !! "version" = current !! "version").
  { apply merge_lookup_frame.
    destruct playing; simpl; rewrite !elem_of_cons, elem_of_nil;
      intuition discriminate. }
  unfold nextVersion at 1.
  rewrite (get_update_record _ _ _ current "position" (JNum position) Hget)
    by (destruct playing; node_lookup).
  unfold nextVersion. rewrite Hget.
  set (r := merge _ _) in *. unfold getNextVersion. simpl. by rewrite Hv.
Qed.

(** One command moves the next version by one when it reaches its write and
    not at all otherwise. *)
Lemma exec_nextVersion e roomId userId c s d :
  nextVersion roomId (exec e roomId userId c (s, d)).2
  = if effective c s (get (playbackRef roomId) d)
    then (nextVersion roomId d + 1)%Q
    else nextVersion roomId d.
Proof.
  destruct (effective c s (get (playbackRef roomId) d)) eqn:Heff.
  - destruct (targetOf c) as [[playing position] |] eqn:Htarget;
      [| by destruct c].
    destruct (exec_issued e roomId userId c s d playing position Htarget Heff)
      as (r & Hr & _ & _ & Hv & _).
    by apply (nextVersion_of_record _ _ r).
  - destruct c as [songId songMeta volume | p | p | p b | | p b];
      simpl in Heff; try done.
    + apply bool_decide_eq_false in Heff.
      simpl. unfold pause.
      destruct (get (playbackRef roomId) d) eqn:Hget; [| reflexivity].
      by destruct Heff.
    + apply bool_decide_eq_false in Heff.
      simpl. unfold resume.
      destruct (get (playbackRef roomId) d) eqn:Hget; [| reflexivity].
      by destruct Heff.
    + simpl. unfold seek.
      destruct (seekThrottle s); [reflexivity |].
      destruct (get (playbackRef roomId) d) eqn:Hget; [| reflexivity].
      rewrite bool_decide_eq_true_2 in Heff by done. done.
    + apply heartbeat_nextVersion.
Qed.

(** X3: when the commands issued by the clients of a room run one after
    another, each one's read and write done before the next command
    starts, the version the next operation would write grows by exactly the
    number of commands that reached their write (heartbeats, throttled
    seeks and transport operations on a missing record do not move it) and
    never decreases.  Operations that overlap are not counted this way:
    the version an operation writes is computed from the record it has
    read, so two transport operations that have both read the same record
    write the same version, and once both writes have landed the version
    has advanced by one only. *)
Theorem versions_count_operations (roomId : string) (issues : list Issue)
    (w : World) :
  (nextVersion roomId (database (runIssues roomId issues w))
   == nextVersion roomId (database w)
      + inject_Z (Z.of_nat (effectiveCount roomId issues w)))%Q ∧
  (nextVersion roomId (database w)
   <= nextVersion roomId (database (runIssues roomId issues w)))%Q ∧
  (∀ e1 e2 u1 u2 c1 c2 o1 o2 current p1 p2,
     payloadOf e1 u1 c1 o1 current = Some p1 →
     payloadOf e2 u2 c2 o2 current = Some p2 →
     merge p1 current !! "version"
     = Some (JNum (getNextVersion (Some current))) ∧
     merge p2 (merge p1 current) !! "version"
     = Some (JNum (getNextVersion (Some current)))).
Proof.
  assert (Hcount : ∀ issues w,
    (nextVersion roomId (database (runIssues roomId issues w))
     == nextVersion roomId (database w)
        + inject_Z (Z.of_nat (effectiveCount roomId issues w)))%Q).
  { clear. intros issues. induction issues as [| i rest IH]; intros w.
    - simpl. ring.
    - change (runIssues roomId (i :: rest) w)
        with (runIssues roomId rest (issue roomId w i)).
      rewrite IH. simpl effectiveCount.
      rewrite Nat2Z.inj_add, inject_Z_plus.
      unfold issue at 1. simpl database.
      rewrite exec_nextVersion.
      destruct (effective _ _ _); simpl; ring. }
  split; [apply Hcount |]. split.
  - rewrite (Hcount issues w).
    assert (0 <= inject_Z (Z.of_nat (effectiveCount roomId issues w)))%Q.
    { change 0%Q with (inject_Z 0). rewrite <- Zle_Qle. lia. }
    lra.
  - intros e1 e2 u1 u2 c1 c2 o1 o2 current p1 p2 H1 H2.
    destruct c1 as [? ? ? | q1 | q1 | q1 b1 | |]; try discriminate;
      injection H1 as <-;
      (destruct c2 as [? ? ? | q2 | q2 | q2 b2 | |]; try discriminate;
       injection H2 as <-);
      split; try destruct b1; try destruct b2; node_lookup.
Qed.

(** ** Echo recognition across issuer and subscriber *)

Lemma exec_opId e roomId userId c s d t :
  targetOf c = Some t →
  effective c s (get (playbackRef roomId) d) = true →
  lastUserOpId (exec e roomId userId c (s, d)).1 = Some (generateOpId e) ∧
  ∃ r, get (playbackRef roomId) (exec e roomId userId c (s, d)).2 = Some r ∧
       r !! "opId" = Some (JStr (generateOpId e)).
Proof.
  intros Htarget Heff. destruct t as [playing position].
  destruct (exec_issued e roomId userId c s d playing position Htarget Heff)
    as (r & Hr & _ & _ & _ & _ & _ & _ & opId & Hop & Hlast).
  assert (Hs : lastUserOpId (exec e roomId userId c (s, d)).1
               = Some (generateOpId e)).
  { destruct c as [songId songMeta volume | p | p | p b | |];
      [reflexivity | | | | done | done].
    - destruct (effective_record _ _ _ Heff eq_refl) as [current Hget].
      by rewrite (exec_pause _ _ _ _ _ _ current Hget).
    - destruct (effective_record _ _ _ Heff eq_refl) as [current Hget].
      by rewrite (exec_resume _ _ _ _ _ _ current Hget).
    - destruct (effective_record _ _ _ Heff eq_refl) as [current Hget].
      by rewrite (exec_seek _ _ _ _ _ _ _ current Hget
                    (effective_seek_idle _ _ _ _ Heff)). }
  split; [exact Hs |]. exists r. split; [exact Hr |].
  rewrite Hs in Hlast. by injection Hlast as <-.
Qed.

Lemma isLocalOf_own svc r opId :
  r !! "opId" = Some (JStr opId) → lastUserOpId svc = Some opId →
  isLocalOf svc r = true.
Proof.
  intros Hop Hlast. unfold isLocalOf, field. rewrite Hop, Hlast. simpl.
  apply String.eqb_refl.
Qed.

Lemma isLocalOf_other svc r opId :
  r !! "opId" = Some (JStr opId) → lastUserOpId svc ≠ Some opId →
  isLocalOf svc r = false.
Proof.
  intros Hop Hlast. unfold isLocalOf, field. rewrite Hop. simpl.
  destruct (lastUserOpId svc) as [l |]; [| reflexivity].
  apply String.eqb_neq. intros ->. by apply Hlast.
Qed.

Lemma syncCallback_local_sameMedia player state pos st :
  sameMedia st (syncCallback player (State state pos true) st).
Proof.
  unfold syncCallback. destruct (Qlt_le_dec _ _); by repeat split.
Qed.

(** X4: the record an operation leaves is recognised as an echo by the
    issuing client's service, so delivering it to the issuer's provider
    changes nothing of its media state; every client whose last operation
    id is a different one sees it as a remote update. *)
Theorem own_operation_is_echo (e : Env) (roomId userId : string)
    (c : Command) (s : Service) (d : Database) (t : bool * Q) (now : Z)
    (player : PlayerRef) (st : Provider) :
  targetOf c = Some t →
  effective c s (get (playbackRef roomId) d) = true →
  ∃ r,
    get (playbackRef roomId) (exec e roomId userId c (s, d)).2 = Some r ∧
    isLocalOf (exec e roomId userId c (s, d)).1 r = true ∧
    sameMedia st
      (syncCallback player
         (onValue (exec e roomId userId c (s, d)).1 now (Some r)) st) ∧
    ∀ other,
      lastUserOpId other ≠ lastUserOpId (exec e roomId userId c (s, d)).1 →
      isLocalOf other r = false.
Proof.
  intros Htarget Heff.
  destruct (exec_opId e roomId userId c s d t Htarget Heff)
    as (Hlast & r & Hr & Hop).
  assert (Hlocal : isLocalOf (exec e roomId userId c (s, d)).1 r = true).
  { by apply (isLocalOf_own _ _ (generateOpId e)). }
  exists r. split; [exact Hr |]. split; [exact Hlocal |]. split.
  - unfold onValue. rewrite Hlocal. apply syncCallback_local_sameMedia.
  - intros other Hother. apply (isLocalOf_other _ _ (generateOpId e) Hop).
    by rewrite <- Hlast.
Qed.

Lemma own_operation_is_echo_witness :
  ∃ r,
    get (playbackRef "r1")
      (exec (Sample.env 1700000003000 "pp01aa") "r1" "bob" (CPause 3)
         (Sample.idle, Sample.roomDb)).2 = Some r ∧
    isLocalOf
      (exec (Sample.env 1700000003000 "pp01aa") "r1" "bob" (CPause 3)
         (Sample.idle, Sample.roomDb)).1 r = true ∧
    isLocalOf Sample.aliceService r = false.
Proof.
  assert (Heff : effective (CPause 3) Sample.idle
                   (get (playbackRef "r1") Sample.roomDb) = true).
  { vm_compute. reflexivity. }
  destruct (own_operation_is_echo (Sample.env 1700000003000 "pp01aa") "r1"
              "bob" (CPause 3) Sample.idle Sample.roomDb (false, 3%Q)
              1700000003100 NoPlayer Sample.initial eq_refl Heff)
    as (r & Hr & Hown & _ & Hother).
  exists r. split; [exact Hr |]. split; [exact Hown |].
  apply Hother. vm_compute. discriminate.
Defined.

(** X5: a service remembers only its last operation id.  When a client
    issues two operations whose ids differ, the record left by the first is
    no longer recognised as its echo once the second has been issued, while
    the record left by the second is. *)
Theorem only_last_operation_is_echo (e1 e2 : Env) (roomId userId : string)
    (c1 c2 : Command) (s : Service) (d : Database) (t1 t2 : bool * Q) :
  targetOf c1 = Some t1 →
  targetOf c2 = Some t2 →
  effective c1 s (get (playbackRef roomId) d) = true →
  effective c2 (exec e1 roomId userId c1 (s, d)).1
    (get (playbackRef roomId) (exec e1 roomId userId c1 (s, d)).2) = true →
  generateOpId e1 ≠ generateOpId e2 →
  ∃ r1 r2,
    get (playbackRef roomId) (exec e1 roomId userId c1 (s, d)).2 = Some r1 ∧
    get (playbackRef roomId)
      (exec e2 roomId userId c2 (exec e1 roomId userId c1 (s, d))).2
      = Some r2 ∧
    isLocalOf (exec e2 roomId userId c2 (exec e1 roomId userId c1 (s, d))).1
      r1 = false ∧
    isLocalOf (exec e2 roomId userId c2 (exec e1 roomId userId c1 (s, d))).1
      r2 = true.
Proof.
  intros Ht1 Ht2 Heff1 Heff2 Hne.
  destruct (exec_opId e1 roomId userId c1 s d t1 Ht1 Heff1)
    as (_ & r1 & Hr1 & Hop1).
  destruct (exec e1 roomId userId c1 (s, d)) as [s1 d1] eqn:E1.
  simpl fst in *; simpl snd in *.
  destruct (exec_opId e2 roomId userId c2 s1 d1 t2 Ht2 Heff2)
    as (Hlast2 & r2 & Hr2 & Hop2).
  exists r1, r2. split; [exact Hr1 |]. split; [exact Hr2 |]. split.
  - apply (isLocalOf_other _ _ (generateOpId e1) Hop1).
    rewrite Hlast2. intros [= Heq]. by apply Hne.
  - by apply (isLocalOf_own _ _ (generateOpId e2)).
Qed.

Lemma only_last_operation_is_echo_witness :
  ∃ r1,
    get (playbackRef "r1")
      (exec (Sample.env 1700000003000 "pp01aa") "r1" "alice" (CPause 3)
         (Sample.aliceService, Sample.roomDb)).2 = Some r1 ∧
    isLocalOf
      (exec (Sample.env 1700000003200 "pp02bb") "r1" "alice" (CResume 3)
         (exec (Sample.env 1700000003000 "pp01aa") "r1" "alice" (CPause 3)
            (Sample.aliceService, Sample.roomDb))).1 r1 = false.
Proof.
  assert (Heff1 : effective (CPause 3) Sample.aliceService
                    (get (playbackRef "r1") Sample.roomDb) = true).
  { vm_compute. reflexivity. }
  assert (Heff2 : effective (CResume 3)
                    (exec (Sample.env 1700000003000 "pp01aa") "r1" "alice"
                       (CPause 3) (Sample.aliceService, Sample.roomDb)).1
                    (get (playbackRef "r1")
                       (exec (Sample.env 1700000003000 "pp01aa") "r1" "alice"
                          (CPause 3) (Sample.aliceService, Sample.roomDb)).2)
                  = true).
  { vm_compute. reflexivity. }
  assert (Hne : generateOpId (Sample.env 1700000003000 "pp01aa")
                ≠ generateOpId (Sample.env 1700000003200 "pp02bb")).
  { vm_compute. discriminate. }
  destruct (only_last_operation_is_echo
              (Sample.env 1700000003000 "pp01aa")
              (Sample.env 1700000003200 "pp02bb") "r1" "alice"
              (CPause 3) (CResume 3) Sample.aliceService Sample.roomDb
              (false, 3%Q) (true, 3%Q) eq_refl eq_refl Heff1 Heff2 Hne)
    as (r1 & _ & Hr1 & _ & Hold & _).
  exists r1. by split.
Defined.

(** ** What subscribers compute from a written record *)

Lemma syncedPosOf_no_start s now raw p :
  raw !! "position" = Some (JNum p) →
  raw !! "startServerTs" = None →
  syncedPosOf s now raw = p.
Proof.
  intros Hp Hts. unfold syncedPosOf, startServerTsOf.
  rewrite (positionOf_number _ _ Hp). unfold field. by rewrite Hts.
Qed.

(** X6: after an operation that reached its write, any subscriber, at
    whatever server time [T] it estimates, is handed the requested position
    when the operation left the room paused, and the requested position
    plus the time elapsed since the write's server timestamp when it left
    it playing (the timestamp being a real one, not 0); at [T] equal to
    that timestamp the position handed over is the requested one. *)
Theorem subscriber_position_after_operation (e : Env)
    (roomId userId : string) (c : Command) (s : Service) (d : Database)
    (playing : bool) (position : Q) (svc : Service) (now : Z) :
  targetOf c = Some (playing, position) →
  effective c s (get (playbackRef roomId) d) = true →
  ¬ (serverTs e == 0)%Q →
  ∃ r,
    get (playbackRef roomId) (exec e roomId userId c (s, d)).2 = Some r ∧
    syncedPosOf svc now r
    = (if playing
       then (position + (nowServerMs svc now - serverTs e) / 1000)%Q
       else position) ∧
    ((nowServerMs svc now == serverTs e)%Q →
     (syncedPosOf svc now r == position)%Q).
Proof.
  intros Htarget Heff Hts.
  destruct (exec_issued e roomId userId c s d playing position Htarget Heff)
    as (r & Hr & Hplay & Hpos & _ & _ & _ & Hstart & _).
  assert (Hsync : syncedPosOf svc now r
                  = (if playing
                     then (position + (nowServerMs svc now - serverTs e) / 1000)%Q
                     else position)).
  { destruct playing.
    - apply syncedPosOf_playing; try done. unfold field. by rewrite Hplay.
    - by apply syncedPosOf_no_start. }
  exists r. split; [exact Hr |]. split; [exact Hsync |].
  intros Hnow. rewrite Hsync. destruct playing; [| reflexivity].
  rewrite Hnow. field.
Qed.

Lemma subscriber_position_after_operation_witness :
  ∃ r,
    get (playbackRef "r1")
      (exec (Sample.env 1700000003000 "pp01aa") "r1" "bob" (CResume 12)
         (Sample.idle, Sample.roomDb)).2 = Some r ∧
    (syncedPosOf Sample.idle 1700000008040 r == 17)%Q.
Proof.
  assert (Heff : effective (CResume 12) Sample.idle
                   (get (playbackRef "r1") Sample.roomDb) = true).
  { vm_compute. reflexivity. }
  destruct (subscriber_position_after_operation
              (Sample.env 1700000003000 "pp01aa") "r1" "bob" (CResume 12)
              Sample.idle Sample.roomDb true 12 Sample.idle 1700000008040
              eq_refl Heff)
    as (r & Hr & Hsync & _).
  { vm_compute. discriminate. }
  exists r. split; [exact Hr |]. rewrite Hsync. vm_compute. reflexivity.
Defined.

(** ** Heartbeats as seen by subscribers *)




Lemma heartbeat_payload_frame e position playing (n : gmap string JsVal) k :
  k ∉ heartbeatKeys →
  merge (heartbeatPayload e position playing) n !! k = n !! k.
Proof.
  intros Hk. apply merge_lookup_frame. by destruct playing.
Qed.



(** ** The seek throttle over several windows *)

Lemma runClient_app roomId userId evs1 evs2 sd :
  runClient roomId userId (evs1 ++ evs2) sd
  = runClient roomId userId evs2 (runClient roomId userId evs1 sd).
Proof. unfold runClient. apply foldl_app. Qed.

(** X8: once the timer armed by a written seek has fired, the next seek
    intent is written as well: a seek, any number of intents dropped while
    the timer is pending, the timer firing, a second seek and again any
    number of dropped intents leave exactly two writes in the log, the
    record carries the position of the second written seek, and the version
    has advanced by two. *)
Theorem seek_written_again_after_timeout (roomId userId : string)
    (e1 e2 : Env) (p1 p2 : Q) (b1 b2 : bool)
    (dropped1 dropped2 : list ClientEvent) (s : Service) (d : Database)
    (current : gmap string JsVal) :
  seekThrottle s = false →
  get (playbackRef roomId) d = Some current →
  Forall (λ ev, ev ≠ ThrottleTimeout) dropped1 →
  Forall (λ ev, ev ≠ ThrottleTimeout) dropped2 →
  let r1 := merge (seekPayload e1 userId p1 b1 (generateOpId e1) current)
              current in
  let final := runClient roomId userId
                 (SeekIntent e1 p1 b1 :: dropped1 ++
                  ThrottleTimeout :: SeekIntent e2 p2 b2 :: dropped2)
                 (s, d) in
  writes final.2
  = writes d ++
    [WUpdate (playbackRef roomId)
       (seekPayload e1 userId p1 b1 (generateOpId e1) current);
     WUpdate (playbackRef roomId)
       (seekPayload e2 userId p2 b2 (generateOpId e2) r1)] ∧
  (∃ r, get (playbackRef roomId) final.2 = Some r ∧
        r !! "position" = Some (JNum p2) ∧
        r !! "version" = Some (JNum (nextVersion roomId d + 1))) ∧
  seekThrottle final.1 = true.
Proof.
  intros Hthr Hget Hd1 Hd2 r1 final. subst final.
  rewrite runClient_cons, (clientStep_first _ _ _ _ _ _ _ current Hthr Hget).
  rewrite runClient_app, runClient_throttled by (reflexivity || exact Hd1).
  rewrite runClient_cons. simpl clientStep.
  assert (Hget1 : get (playbackRef roomId)
                    (update (playbackRef roomId)
                       (seekPayload e1 userId p1 b1 (generateOpId e1) current)
                       d) = Some r1).
  { eapply (get_update_record _ _ _ _ "position"); [exact Hget |].
    destruct b1; node_lookup. }
  rewrite runClient_cons.
  rewrite (clientStep_first _ _ _ _ _ _ _ r1) by (reflexivity || exact Hget1).
  rewrite runClient_throttled by (reflexivity || exact Hd2).
  simpl fst; simpl snd.
  split; [| split; [| reflexivity]].
  - simpl. by rewrite <- app_assoc.
  - eexists. split.
    { eapply (get_update_record _ _ _ _ "position"); [exact Hget1 |].
      destruct b2; node_lookup. }
    split; [destruct b2; node_lookup |].
    assert (Hv1 : getNextVersion (Some r1)
                  = (nextVersion roomId d + 1)%Q).
    { apply getNextVersion_number. subst r1. unfold nextVersion.
      rewrite Hget. destruct b1; node_lookup. }
    rewrite <- Hv1. destruct b2; node_lookup.
Qed.

Lemma seek_written_again_after_timeout_witness :
  ∃ r,
    get (playbackRef "r1")
      (runClient "r1" "alice"
         (SeekIntent (Sample.env 1700000001000 "aaaaaa") 10 true ::
          [SeekIntent (Sample.env 1700000001050 "bbbbbb") 12 true] ++
          ThrottleTimeout ::
          SeekIntent (Sample.env 1700000001300 "cccccc") 15 true :: [])
         (Sample.aliceService, Sample.roomDb)).2 = Some r ∧
    r !! "position" = Some (JNum 15).
Proof.
  destruct (seek_written_again_after_timeout "r1" "alice"
              (Sample.env 1700000001000 "aaaaaa")
              (Sample.env 1700000001300 "cccccc") 10 15 true true
              [SeekIntent (Sample.env 1700000001050 "bbbbbb") 12 true] []
              Sample.aliceService Sample.roomDb Sample.roomRecord
              eq_refl get_roomDb)
    as (_ & (r & Hr & Hpos & _) & _).
  { by repeat constructor. }
  { constructor. }
  exists r. by split.
Defined.

(** X9: [seek] arms its timer before it looks for the record.  A seek on a
    room without record writes nothing but still opens the rate-limit
    window: until the timer fires, every further seek of that client is
    dropped, whatever the database has become in the meantime (the record
    may have been created since). *)
Theorem seek_on_missing_record_opens_window (e1 e2 : Env)
    (roomId userId : string) (p1 p2 : Q) (b1 b2 : bool) (s : Service)
    (d d' : Database) :
  seekThrottle s = false →
  get (playbackRef roomId) d = None →
  (seek e1 roomId userId p1 b1 s d).2 = d ∧
  seekThrottle (seek e1 roomId userId p1 b1 s d).1.2 = true ∧
  seek e2 roomId userId p2 b2 (seek e1 roomId userId p1 b1 s d).1.2 d'
  = (Returned tt, (seek e1 roomId userId p1 b1 s d).1.2, d').
Proof.
  intros Hthr Hget.
  assert (Hseek : seek e1 roomId userId p1 b1 s d
                  = (Returned tt, withThrottle s true, d)).
  { unfold seek. by rewrite Hthr, Hget. }
  rewrite Hseek. simpl fst; simpl snd.
  split; [reflexivity |]. split; [reflexivity |]. by apply seek_throttled.
Qed.

Lemma seek_on_missing_record_opens_window_witness :
  seek (Sample.env 1700000001100 "bbbbbb") "r1" "alice" 12 true
    (seek (Sample.env 1700000001000 "aaaaaa") "r1" "alice" 10 true
       Sample.idle Sample.emptyDb).1.2 Sample.roomDb
  = (Returned tt,
     (seek (Sample.env 1700000001000 "aaaaaa") "r1" "alice" 10 true
        Sample.idle Sample.emptyDb).1.2, Sample.roomDb).
Proof.
  apply (seek_on_missing_record_opens_window
           (Sample.env 1700000001000 "aaaaaa")
           (Sample.env 1700000001100 "bbbbbb") "r1" "alice" 10 12 true true
           Sample.idle Sample.emptyDb Sample.roomDb eq_refl eq_refl).
Defined.

(** ** Operation ids *)

Lemma pretty_N_char_not_dash x : Ascii.eqb (pretty_N_char x) dash = false.
Proof. unfold pretty_N_char. by repeat case_match. Qed.

Lemma hasDash_pretty_N_go x s :
  hasDash s = false → hasDash (pretty_N_go x s) = false.
Proof.
  revert s. induction (N.lt_wf_0 x) as [x _ IH]; intros s Hs.
  assert (x = 0 ∨ 0 < x)%N as [-> | Hpos] by lia.
  - by rewrite pretty_N_go_0.
  - rewrite pretty_N_go_step by done. apply IH.
    + by apply N.div_lt.
    + simpl. by rewrite pretty_N_char_not_dash.
Qed.

Lemma hasDash_pretty_Z (z : Z) : (0 ≤ z)%Z → hasDash (pretty z) = false.
Proof.
  intros Hz. destruct z as [| p | p]; [reflexivity | | lia].
  unfold pretty, pretty_Z, pretty, pretty_positive, pretty, pretty_N.
  case_decide; [reflexivity |]. by apply hasDash_pretty_N_go.
Qed.

Lemma append_dash_inj (a a' r r' : string) :
  hasDash a = false → hasDash a' = false →
  a +:+ String dash r = a' +:+ String dash r' → a = a' ∧ r = r'.
Proof.
  revert a'. induction a as [| c a IH]; intros [| c' a'] Ha Ha' Heq;
    simpl in *.
  - by injection Heq as ->.
  - injection Heq as <- _. by rewrite Ascii.eqb_refl in Ha'.
  - injection Heq as -> _. by rewrite Ascii.eqb_refl in Ha.
  - injection Heq as -> Heq.
    apply orb_false_iff in Ha as [_ Ha]. apply orb_false_iff in Ha' as [_ Ha'].
    destruct (IH a' Ha Ha' Heq) as [-> ->]. done.
Qed.

(** X10: operation ids generated at non-negative clock readings are equal
    only when both the clock reading and the random suffix are: the id
    determines the pair it was built from, so two operations are confused by
    the echo test only if they collide on both. *)
Theorem generateOpId_determines_inputs (e1 e2 : Env) :
  (0 ≤ dateNow e1)%Z → (0 ≤ dateNow e2)%Z →
  generateOpId e1 = generateOpId e2 →
  dateNow e1 = dateNow e2 ∧ randomSuffix e1 = randomSuffix e2.
Proof.
  intros H1 H2 Heq. unfold generateOpId in Heq.
  change ("-" +:+ randomSuffix e1) with (String dash (randomSuffix e1)) in Heq.
  change ("-" +:+ randomSuffix e2) with (String dash (randomSuffix e2)) in Heq.
  apply append_dash_inj in Heq as [Hnow Hsuffix];
    [| by apply hasDash_pretty_Z..].
  split; [| exact Hsuffix]. by apply (inj pretty).
Qed.

Lemma generateOpId_determines_inputs_witness :
  dateNow (Sample.env 1700000003000 "pp01aa")
  = dateNow (mkEnv 1700000003000 "pp01aa" 0).
Proof.
  apply (generateOpId_determines_inputs
           (Sample.env 1700000003000 "pp01aa")
           (mkEnv 1700000003000 "pp01aa" 0)).
  - vm_compute. discriminate.
  - vm_compute. discriminate.
  - vm_compute. reflexivity.
Defined.

(** ** The applied version over arbitrary deliveries *)

Lemma deliver_version_cases u st :
  (deliver u st = st ∧
   (versionOf (u_state u) < lastAppliedVersion st)%Q) ∨
  (lastAppliedVersion (deliver u st) = versionOf (u_state u) ∧
   (lastAppliedVersion st <= versionOf (u_state u))%Q).
Proof.
  unfold deliver, syncCallback.
  destruct (Qlt_le_dec _ _) as [Hlt | Hle]; [by left |].
  right. split; [| exact Hle].
  destruct (u_isLocal u); [reflexivity |].
  by destruct (remoteApply_common (u_player u) (u_state u) (u_syncedPos u)
                 (setLastAppliedVersion (versionOf (u_state u)) st))
    as [-> _].
Qed.

(** X11: whatever is delivered, in whatever order and with whatever
    repetitions, the applied version never decreases, ends up at least as
    high as every delivered version, and is the initial one or the version
    of one of the delivered updates: it is the maximum of them all. *)
Theorem applied_version_is_maximum (us : list Update) (st : Provider) :
  (lastAppliedVersion st <= lastAppliedVersion (deliverAll us st))%Q ∧
  Forall (λ u, (versionOf (u_state u)
                <= lastAppliedVersion (deliverAll us st))%Q) us ∧
  (lastAppliedVersion (deliverAll us st) = lastAppliedVersion st ∨
   ∃ u, u ∈ us ∧
        lastAppliedVersion (deliverAll us st) = versionOf (u_state u)).
Proof.
  revert st. induction us as [| u us IH]; intros st.
  - simpl. split; [apply Qle_refl |]. split; [constructor | by left].
  - change (deliverAll (u :: us) st) with (deliverAll us (deliver u st)).
    destruct (IH (deliver u st)) as (Hmono & Hall & Hsome).
    destruct (deliver_version_cases u st) as [[Hsame Hlt] | [Hnew Hle]].
    + rewrite Hsame in *. split; [exact Hmono |]. split.
      * constructor; [| exact Hall]. apply Qlt_le_weak.
        eapply Qlt_le_trans; [exact Hlt | exact Hmono].
      * destruct Hsome as [Heq | (u' & Hin & Heq)]; [by left |].
        right. exists u'. split; [by right | exact Heq].
    + rewrite Hnew in Hmono. split; [by eapply Qle_trans |]. split.
      * constructor; [exact Hmono | exact Hall].
      * right. destruct Hsome as [Heq | (u' & Hin & Heq)].
        -- exists u. split; [by left |]. by rewrite Heq.
        -- exists u'. split; [by right | exact Heq].
Qed.

(** ** Redelivery and the drift tolerance *)

Lemma strict_eq_refl_str s : strict_eq (JStr s) (JStr s) = true.
Proof. simpl. apply String.eqb_refl. Qed.





(** ** The pending position *)



(** ** Records a room can reach *)

Lemma exec_version_invariant e roomId userId c s d :
  (∀ r, get (playbackRef roomId) d = Some r →
        ∃ v, r !! "version" = Some (JNum v) ∧ (1 <= v)%Q) →
  ∀ r, get (playbackRef roomId) (exec e roomId userId c (s, d)).2 = Some r →
       ∃ v, r !! "version" = Some (JNum v) ∧ (1 <= v)%Q.
Proof.
  intros Hinv r Hr.
  assert (Hnext : (1 <= nextVersion roomId d)%Q).
  { unfold nextVersion.
    destruct (get (playbackRef roomId) d) as [r0 |] eqn:Hget;
      [| by rewrite getNextVersion_absent].
    destruct (Hinv r0 eq_refl) as (v & Hv & Hle).
    rewrite (getNextVersion_number _ _ Hv). lra. }
  destruct (effective c s (get (playbackRef roomId) d)) eqn:Heff.
  - destruct (targetOf c) as [[playing position] |] eqn:Htarget;
      [| by destruct c].
    destruct (exec_issued e roomId userId c s d playing position Htarget Heff)
      as (r' & Hr' & _ & _ & Hv & _).
    rewrite Hr in Hr'. injection Hr' as <-. eauto.
  - destruct c as [songId songMeta volume | p | p | p b | | p b];
      simpl in Heff; try done.
    + apply bool_decide_eq_false in Heff. simpl in Hr. unfold pause in Hr.
      destruct (get (playbackRef roomId) d) eqn:Hget; [by destruct Heff |].
      simpl in Hr. by rewrite Hget in Hr.
    + apply bool_decide_eq_false in Heff. simpl in Hr. unfold resume in Hr.
      destruct (get (playbackRef roomId) d) eqn:Hget; [by destruct Heff |].
      simpl in Hr. by rewrite Hget in Hr.
    + simpl in Hr. unfold seek in Hr.
      destruct (seekThrottle s); [by apply Hinv |].
      destruct (get (playbackRef roomId) d) eqn:Hget.
      * rewrite bool_decide_eq_true_2 in Heff by done. done.
      * simpl in Hr. by rewrite Hget in Hr.
    + by apply Hinv.
    + change (exec e roomId userId (CHeartbeat p b) (s, d)).2
        with (heartbeatTick e roomId userId (p, b) d) in Hr.
      unfold heartbeatTick in Hr.
      destruct (get (playbackRef roomId) d) as [current |] eqn:Hget;
        [| by rewrite Hget in Hr].
      destruct (negb _) eqn:Hini; [apply Hinv; by rewrite <- Hget |].
      rewrite (get_update_record _ _ _ current "position" (JNum p) Hget)
        in Hr by (destruct b; node_lookup).
      injection Hr as Hr. subst r.
      destruct (Hinv current eq_refl) as (v & Hv & Hle).
      exists v. split; [| exact Hle].
      rewrite <- Hv. apply (heartbeat_payload_frame e p b current).
      unfold heartbeatKeys. rewrite !elem_of_cons, elem_of_nil.
      intuition discriminate.
Qed.

(** X14: in a room whose record did not exist, whatever commands the
    clients then issue, the record, once there, carries a numeric version
    of at least 1; a client whose applied version has just been reset to 0
    therefore never filters the first state it observes, and records its
    version. *)
Theorem reachable_record_is_accepted (roomId : string)
    (issues : list Issue) (w : World) (r : gmap string JsVal)
    (svc : Service) (now : Z) (player : PlayerRef) (st0 : Provider) :
  get (playbackRef roomId) (database w) = None →
  get (playbackRef roomId) (database (runIssues roomId issues w)) = Some r →
  ∃ v, r !! "version" = Some (JNum v) ∧ (1 <= v)%Q ∧
       lastAppliedVersion
         (syncCallback player (onValue svc now (Some r))
            (subscribeEffect true (setActiveRoom st0))) = v.
Proof.
  intros Habsent Hr.
  assert (Hinv : ∀ issues w,
    (∀ r, get (playbackRef roomId) (database w) = Some r →
          ∃ v, r !! "version" = Some (JNum v) ∧ (1 <= v)%Q) →
    ∀ r, get (playbackRef roomId) (database (runIssues roomId issues w))
         = Some r →
         ∃ v, r !! "version" = Some (JNum v) ∧ (1 <= v)%Q).
  { clear. intros issues. induction issues as [| i rest IH]; intros w Hw.
    - exact Hw.
    - change (runIssues roomId (i :: rest) w)
        with (runIssues roomId rest (issue roomId w i)).
      apply IH. unfold issue. simpl database.
      by apply exec_version_invariant. }
  destruct (Hinv issues w) with (r := r) as (v & Hv & Hle); [| exact Hr |].
  { intros r0 Hr0. by rewrite Habsent in Hr0. }
  exists v. split; [exact Hv |]. split; [exact Hle |].
  assert (Hver : versionOf r = v).
  { unfold versionOf, field. by rewrite Hv. }
  unfold onValue, syncCallback. rewrite Hver.
  change (lastAppliedVersion (subscribeEffect true (setActiveRoom st0)))
    with 0%Q.
  destruct (Qlt_le_dec v 0) as [Hlt | _]; [exfalso; lra |].
  destruct (isLocalOf svc r); [reflexivity |].
  by destruct (remoteApply_common player r (syncedPosOf svc now r)
                 (setLastAppliedVersion v
                    (subscribeEffect true (setActiveRoom st0))))
    as [-> _].
Qed.

Lemma reachable_record_is_accepted_witness :
  ∃ v, (1 <= v)%Q ∧
       lastAppliedVersion
         (syncCallback NoPlayer
            (onValue Sample.idle 1700000009000 (Some Sample.roomRecord))
            Sample.joined) = v.
Proof.
  destruct (reachable_record_is_accepted "r1"
              [mkIssue "alice" (Sample.env 1700000000000 "k3x9ab")
                 (CPlaySong "song1" Sample.meta 80)]
              (mkWorld ∅ Sample.emptyDb) Sample.roomRecord Sample.idle
              1700000009000 NoPlayer Sample.initial)
    as (v & _ & Hle & Happlied).
  - reflexivity.
  - vm_compute. reflexivity.
  - exists v. by split.
Defined.

(** ** Adding to and removing from the room queue *)

Import QueueOps.

Lemma queue_playback_paths roomId : queueRef roomId ≠ playbackRef roomId.
Proof.
  unfold queueRef, playbackRef. intros Heq.
  apply (inj (String.app "rooms/")) in Heq.
  apply (inj (String.app roomId)) in Heq. discriminate.
Qed.

(** What the queue listener receives, read off the stored node. *)
Lemma queue_listing lc roomId d :
  onQueueValue lc (queueVal roomId d)
  = sortItems lc
      (toItem <$> map_to_list (default ∅ (get (queueRef roomId) d))).
Proof.
  unfold queueVal. destruct (get (queueRef roomId) d); simpl; [reflexivity |].
  by rewrite map_to_list_empty.
Qed.

Lemma queue_first lc roomId d :
  getFirstItem lc roomId d = head (onQueueValue lc (queueVal roomId d)).
Proof.
  unfold getFirstItem, queueVal.
  by destruct (get (queueRef roomId) d).
Qed.

Lemma node_after_setChild parent key p d :
  default ∅ (get parent (setChild parent key p d))
  = <[key := JObj p]> (default ∅ (get parent d)).
Proof.
  unfold setChild, get, put; simpl.
  destruct (decide _) as [Hempty | _].
  - by destruct (insert_non_empty _ _ _ Hempty).
  - by rewrite lookup_insert_eq.
Qed.

Lemma node_after_removeChild parent key d :
  default ∅ (get parent (removeChild parent key d))
  = delete key (default ∅ (get parent d)).
Proof.
  unfold removeChild, get, put; simpl.
  destruct (decide _) as [Hempty | _].
  - by rewrite lookup_delete_eq, Hempty.
  - by rewrite lookup_insert_eq.
Qed.

Lemma get_setChild_ne parent key p d path :
  parent ≠ path → get path (setChild parent key p d) = get path d.
Proof. intros Hne. unfold setChild. by apply get_put_ne. Qed.

Lemma get_removeChild_ne parent key d path :
  parent ≠ path → get path (removeChild parent key d) = get path d.
Proof. intros Hne. unfold removeChild. by apply get_put_ne. Qed.

Lemma toItem_added k userId song ts :
  toItem (k, JObj (itemPayload userId song ts)) = addedItem k userId song ts.
Proof. reflexivity. Qed.

(** X15: [addSong] throws, having written nothing, when no key was
    generated.  Otherwise it returns the key, the item it wrote is in the
    list pushed to queue subscribers, with that key as [itemId], the caller
    as [addedBy] and the server timestamp as [addedAt], every item that
    was listed under another key still is, and the room's playback record
    is untouched. *)
Theorem addSong_outcome (lc : string → string → Z) (key : option string)
    (ts : Q) (roomId userId : string) (song : RoomQueueSong)
    (d : Database) :
  match key with
  | Some k =>
      if String.eqb k ""
      then addSong key ts roomId userId song d
           = (Thrown "Failed to create queue item", d)
      else
        ∃ d',
          addSong key ts roomId userId song d = (Returned k, d') ∧
          addedItem k userId song ts ∈ onQueueValue lc (queueVal roomId d') ∧
          (∀ x, x ∈ onQueueValue lc (queueVal roomId d) → itemId x ≠ k →
                x ∈ onQueueValue lc (queueVal roomId d')) ∧
          get (playbackRef roomId) d' = get (playbackRef roomId) d
  | None =>
      addSong key ts roomId userId song d
      = (Thrown "Failed to create queue item", d)
  end.
Proof.
  destruct key as [k |]; [| reflexivity].
  unfold addSong. destruct (String.eqb k ""); [reflexivity |].
  eexists. split; [reflexivity |].
  rewrite !queue_listing, node_after_setChild.
  set (n := default ∅ (get (queueRef roomId) d)).
  split; [| split].
  - rewrite sortItems_perm, <- toItem_added.
    apply list_elem_of_fmap_2, elem_of_map_to_list, lookup_insert_eq.
  - intros x Hx Hne. rewrite sortItems_perm in Hx |- *.
    apply list_elem_of_fmap in Hx as ([k' v] & -> & Hin).
    apply list_elem_of_fmap_2, elem_of_map_to_list.
    apply elem_of_map_to_list in Hin.
    rewrite lookup_insert_ne; [exact Hin |]. intros ->. by apply Hne.
  - apply get_setChild_ne, queue_playback_paths.
Qed.

(** X16: removing an item is idempotent, and removing an id that is not in
    the queue changes nothing of what subscribers are pushed or of what
    [getFirstItem] returns. *)
Theorem removeItem_idempotent (lc : string → string → Z)
    (roomId itemId : string) (d : Database) :
  removeItem roomId itemId (removeItem roomId itemId d)
  = removeItem roomId itemId d ∧
  (default ∅ (get (queueRef roomId) d) !! itemId = None →
   onQueueValue lc (queueVal roomId (removeItem roomId itemId d))
   = onQueueValue lc (queueVal roomId d) ∧
   getFirstItem lc roomId (removeItem roomId itemId d)
   = getFirstItem lc roomId d).
Proof.
  split.
  - unfold removeItem, removeChild; simpl. f_equal.
    set (n := default ∅ (nodes d !! queueRef roomId)).
    unfold put.
    destruct (decide (delete itemId n = ∅)) as [Hempty | Hne].
    + rewrite lookup_delete_eq. simpl. rewrite delete_empty.
      destruct (decide (∅ = ∅)); [| done]. by rewrite delete_delete_eq.
    + rewrite lookup_insert_eq. simpl. rewrite delete_delete_eq.
      destruct (decide (delete itemId n = ∅)); [done |].
      by rewrite insert_insert_eq.
  - intros Habsent.
    assert (Hlist : onQueueValue lc (queueVal roomId (removeItem roomId itemId d))
                    = onQueueValue lc (queueVal roomId d)).
    { rewrite !queue_listing. unfold removeItem.
      rewrite node_after_removeChild. by rewrite delete_id. }
    split; [exact Hlist |]. by rewrite !queue_first, Hlist.
Qed.

Lemma removeItem_idempotent_witness :
  getFirstItem codeUnitCompare "r1" (removeItem "r1" "-Nx" Sample.queueDb)
  = getFirstItem codeUnitCompare "r1" Sample.queueDb.
Proof.
  destruct (removeItem_idempotent codeUnitCompare "r1" "-Nx" Sample.queueDb)
    as [_ Habsent].
  apply Habsent. vm_compute. reflexivity.
Defined.

Lemma StronglySorted_filter {A} (R : relation A) (P : A → Prop)
    `{∀ x, Decision (P x)} l :
  StronglySorted R l → StronglySorted R (filter P l).
Proof.
  induction 1 as [| x l _ IH Hall]; [constructor |].
  rewrite filter_cons. destruct (decide (P x)); [| exact IH].
  constructor; [exact IH |].
  apply Forall_forall. intros y Hy. apply list_elem_of_filter in Hy as [_ Hy].
  rewrite Forall_forall in Hall. by apply Hall.
Qed.

Lemma filter_all {A} (P : A → Prop) `{∀ x, Decision (P x)} l :
  Forall P l → filter P l = l.
Proof.
  induction 1 as [| x l Hx _ IH]; [reflexivity |].
  by rewrite filter_cons_True, IH.
Qed.

(** The items of a node without the child [k] are the items of the node
    whose id is not [k]. *)
Lemma items_after_delete (n : gmap string JsVal) k :
  toItem <$> map_to_list (delete k n)
  ≡ₚ filter (λ it, itemId it ≠ k) (toItem <$> map_to_list n).
Proof.
  assert (Hrest : Forall (λ it, itemId it ≠ k)
                    (toItem <$> map_to_list (delete k n))).
  { apply Forall_forall. intros it Hit.
    apply list_elem_of_fmap in Hit as ([k' v] & -> & Hin).
    apply elem_of_map_to_list, lookup_delete_Some in Hin as [Hne _].
    simpl. by intros ->. }
  destruct (n !! k) as [v |] eqn:Hk.
  - rewrite <- (map_to_list_delete n k v Hk). rewrite fmap_cons.
    rewrite filter_cons_False by (simpl; intros Hne; by apply Hne).
    by rewrite (filter_all _ _ Hrest).
  - rewrite (delete_id _ _ Hk) in *. by rewrite (filter_all _ _ Hrest).
Qed.

Section QueueOpsOrder.

Variable localeCompare : string → string → Z.

Hypothesis localeCompare_total :
  ∀ a b, (localeCompare a b ≤ 0 ∨ localeCompare b a ≤ 0)%Z.
Hypothesis localeCompare_trans :
  ∀ a b c, (localeCompare a b ≤ 0 → localeCompare b c ≤ 0 →
            localeCompare a c ≤ 0)%Z.
Hypothesis localeCompare_antisym :
  ∀ a b, (localeCompare a b ≤ 0)%Z → (localeCompare b a ≤ 0)%Z → a = b.

Lemma listing_after_remove roomId k d :
  onQueueValue localeCompare (queueVal roomId (removeItem roomId k d))
  = filter (λ it, itemId it ≠ k)
      (onQueueValue localeCompare (queueVal roomId d)).
Proof.
  rewrite !queue_listing. unfold removeItem. rewrite node_after_removeChild.
  set (n := default ∅ (get (queueRef roomId) d)).
  apply (StronglySorted_unique_strong (keyLe localeCompare)).
  - intros x y Hx Hy.
    rewrite sortItems_perm, items_after_delete in Hx.
    apply list_elem_of_filter in Hx as [_ Hx].
    apply list_elem_of_filter in Hy as [_ Hy]. rewrite sortItems_perm in Hy.
    apply (items_antisym localeCompare localeCompare_antisym (map_to_list n));
      [apply NoDup_fst_map_to_list | done..].
  - by apply sortItems_sorted.
  - apply StronglySorted_filter. by apply sortItems_sorted.
  - rewrite !sortItems_perm. apply items_after_delete.
Qed.

Lemma listing_NoDup_ids roomId d :
  NoDup (itemId <$> onQueueValue localeCompare (queueVal roomId d)).
Proof.
  rewrite queue_listing, sortItems_perm, <- list_fmap_compose.
  apply NoDup_fst_map_to_list.
Qed.

(** X17: removing an item takes exactly that item out of the list pushed to
    queue subscribers and keeps the others in their order; in particular,
    removing the item [getFirstItem] returned leaves the rest of the list,
    whose head is what [getFirstItem] returns next. *)
Theorem removeItem_filters_listing (roomId k : string) (d : Database) :
  onQueueValue localeCompare (queueVal roomId (removeItem roomId k d))
  = filter (λ it, itemId it ≠ k)
      (onQueueValue localeCompare (queueVal roomId d)) ∧
  ∀ m, getFirstItem localeCompare roomId d = Some m →
       onQueueValue localeCompare
         (queueVal roomId (removeItem roomId (itemId m) d))
       = tail (onQueueValue localeCompare (queueVal roomId d)) ∧
       getFirstItem localeCompare roomId (removeItem roomId (itemId m) d)
       = head (tail (onQueueValue localeCompare (queueVal roomId d))).
Proof.
  split; [apply listing_after_remove |].
  intros m Hm. rewrite queue_first in Hm.
  assert (Htail : onQueueValue localeCompare
                    (queueVal roomId (removeItem roomId (itemId m) d))
                  = tail (onQueueValue localeCompare (queueVal roomId d))).
  { rewrite listing_after_remove.
    pose proof (listing_NoDup_ids roomId d) as Hnd.
    destruct (onQueueValue localeCompare (queueVal roomId d))
      as [| m' rest]; [done |].
    injection Hm as ->. simpl in *.
    rewrite filter_cons_False by (intros Hne; by apply Hne).
    apply NoDup_cons in Hnd as [Hnotin _].
    apply filter_all, Forall_forall. intros x Hx Heq.
    apply Hnotin. rewrite <- Heq. by apply list_elem_of_fmap_2. }
  split; [exact Htail |]. by rewrite queue_first, Htail.
Qed.

(** X18: an item added under a fresh key with a server timestamp later
    than that of every queued item goes to the end of the list pushed to
    subscribers; the items before it keep their order, and [getFirstItem] of
    a queue that was not empty is unchanged. *)
Theorem addSong_appends (k : string) (ts : Q) (roomId userId : string)
    (song : RoomQueueSong) (d : Database) :
  k ≠ "" →
  default ∅ (get (queueRef roomId) d) !! k = None →
  Forall (λ it, (default 0 (addedAt it) < ts)%Q)
    (onQueueValue localeCompare (queueVal roomId d)) →
  ∃ d',
    addSong (Some k) ts roomId userId song d = (Returned k, d') ∧
    onQueueValue localeCompare (queueVal roomId d')
    = onQueueValue localeCompare (queueVal roomId d)
      ++ [addedItem k userId song ts] ∧
    (onQueueValue localeCompare (queueVal roomId d) ≠ [] →
     getFirstItem localeCompare roomId d'
     = getFirstItem localeCompare roomId d).
Proof.
  intros Hk Hfresh Hlater.
  unfold addSong. rewrite (proj2 (String.eqb_neq k "") Hk).
  eexists. split; [reflexivity |].
  assert (Hlist : onQueueValue localeCompare
                    (queueVal roomId
                       (setChild (queueRef roomId) k
                          (itemPayload userId song ts) d))
                  = onQueueValue localeCompare (queueVal roomId d)
                    ++ [addedItem k userId song ts]).
  { rewrite queue_listing in Hlater. rewrite !queue_listing.
    rewrite node_after_setChild.
    set (n := default ∅ (get (queueRef roomId) d)) in *.
    set (v := JObj (itemPayload userId song ts)).
    assert (Hperm : toItem <$> map_to_list (<[k := v]> n)
                    ≡ₚ sortItems localeCompare (toItem <$> map_to_list n)
                       ++ [addedItem k userId song ts]).
    { rewrite (map_to_list_insert n k v Hfresh), fmap_cons, sortItems_perm.
      rewrite <- Permutation_cons_append. subst v.
      by rewrite toItem_added. }
    apply (StronglySorted_unique_strong (keyLe localeCompare)).
    - intros x y Hx Hy. rewrite sortItems_perm in Hx. rewrite <- Hperm in Hy.
      apply (items_antisym localeCompare localeCompare_antisym
               (map_to_list (<[k := v]> n)));
        [apply NoDup_fst_map_to_list | done..].
    - by apply sortItems_sorted.
    - apply StronglySorted_app. split; [| split].
      + intros x y Hx Hy. apply list_elem_of_singleton in Hy as ->.
        rewrite Forall_forall in Hlater. left. simpl. by apply Hlater.
      + by apply sortItems_sorted.
      + repeat constructor.
    - by rewrite sortItems_perm. }
  split; [exact Hlist |].
  intros Hne. rewrite !queue_first, Hlist.
  by destruct (onQueueValue localeCompare (queueVal roomId d)).
Qed.

End QueueOpsOrder.

Lemma removeItem_filters_listing_witness :
  itemId <$> onQueueValue codeUnitCompare
               (queueVal "r1" (removeItem "r1" "-Nc" Sample.queueDb))
  = ["-Na"; "-Nb"].
Proof.
  destruct (removeItem_filters_listing codeUnitCompare codeUnitCompare_total
              codeUnitCompare_trans codeUnitCompare_antisym "r1" "-Nc"
              Sample.queueDb) as [Hfilter _].
  rewrite Hfilter. vm_compute. reflexivity.
Defined.

Lemma addSong_appends_witness :
  ∃ d',
    addSong (Some "-Nd") 1700000000900 "r1" "dave"
      (mkQueueSong "song9" "So What" "Miles Davis" "s.jpg" None)
      Sample.queueDb = (Returned "-Nd", d') ∧
    itemId <$> onQueueValue codeUnitCompare (queueVal "r1" d')
    = ["-Nc"; "-Na"; "-Nb"; "-Nd"].
Proof.
  destruct (addSong_appends codeUnitCompare codeUnitCompare_total
              codeUnitCompare_trans codeUnitCompare_antisym "-Nd"
              1700000000900 "r1" "dave"
              (mkQueueSong "song9" "So What" "Miles Davis" "s.jpg" None)
              Sample.queueDb) as (d' & Hadd & Hlist & _).
  - discriminate.
  - vm_compute. reflexivity.
  - vm_compute. repeat constructor.
  - exists d'. split; [exact Hadd |]. rewrite Hlist. vm_compute. reflexivity.
Defined.

(** X19: removing an item right after it was added under a fresh key gives
    back the queue as it was: the same list is pushed to subscribers and
    [getFirstItem] returns the same item. *)
Theorem add_then_remove_restores (lc : string → string → Z) (k : string)
    (ts : Q) (roomId userId : string) (song : RoomQueueSong)
    (d : Database) :
  k ≠ "" →
  default ∅ (get (queueRef roomId) d) !! k = None →
  ∃ d',
    addSong (Some k) ts roomId userId song d = (Returned k, d') ∧
    onQueueValue lc (queueVal roomId (removeItem roomId k d'))
    = onQueueValue lc (queueVal roomId d) ∧
    getFirstItem lc roomId (removeItem roomId k d')
    = getFirstItem lc roomId d.
Proof.
  intros Hk Hfresh.
  unfold addSong. rewrite (proj2 (String.eqb_neq k "") Hk).
  eexists. split; [reflexivity |].
  assert (Hlist : onQueueValue lc
                    (queueVal roomId
                       (removeItem roomId k
                          (setChild (queueRef roomId) k
                             (itemPayload userId song ts) d)))
                  = onQueueValue lc (queueVal roomId d)).
  { rewrite !queue_listing. unfold removeItem.
    rewrite node_after_removeChild, node_after_setChild.
    by rewrite delete_insert_eq, delete_id. }
  split; [exact Hlist |]. by rewrite !queue_first, Hlist.
Qed.

Lemma add_then_remove_restores_witness :
  ∃ d',
    addSong (Some "-Nd") 1700000000900 "r1" "dave"
      (mkQueueSong "song9" "So What" "Miles Davis" "s.jpg" None)
      Sample.queueDb = (Returned "-Nd", d') ∧
    getFirstItem codeUnitCompare "r1" (removeItem "r1" "-Nd" d')
    = getFirstItem codeUnitCompare "r1" Sample.queueDb.
Proof.
  destruct (add_then_remove_restores codeUnitCompare "-Nd" 1700000000900
              "r1" "dave"
              (mkQueueSong "song9" "So What" "Miles Davis" "s.jpg" None)
              Sample.queueDb) as (d' & Hadd & _ & Hfirst).
  - discriminate.
  - vm_compute. reflexivity.
  - exists d'. by split.
Defined.

(** ** Listeners and heartbeat intervals of the service *)

Import ServiceRegistry.

Lemma stopHeartbeat_consistent roomId g :
  intervalsConsistent g → intervalsConsistent (stopHeartbeat roomId g).
Proof.
  intros [Hrun Hmap]. unfold stopHeartbeat. split; simpl.
  - intros h r u Hh.
    destruct (heartbeatIntervals g !! roomId) as [i |] eqn:Hroom.
    + apply lookup_delete_Some in Hh as [Hne Hh].
      rewrite lookup_delete_ne; [by eapply Hrun |].
      intros <-. apply Hrun in Hh. rewrite Hroom in Hh. by injection Hh.
    + rewrite lookup_delete_ne; [by eapply Hrun |].
      intros <-. apply Hrun in Hh. by rewrite Hroom in Hh.
  - intros r h Hr. apply lookup_delete_Some in Hr as [Hne Hr].
    destruct (Hmap r h Hr) as [u Hu]. exists u.
    destruct (heartbeatIntervals g !! roomId) as [i |] eqn:Hroom;
      [| exact Hu].
    rewrite lookup_delete_ne; [exact Hu |].
    intros <-. destruct (Hmap roomId i Hroom) as [u' Hu'].
    rewrite Hu in Hu'. by injection Hu'.
Qed.

Lemma stopHeartbeat_running_None roomId g h :
  running g !! h = None → running (stopHeartbeat roomId g) !! h = None.
Proof.
  intros Hh. unfold stopHeartbeat; simpl.
  destruct (heartbeatIntervals g !! roomId); [| exact Hh].
  apply lookup_delete_None. by right.
Qed.

Lemma startHeartbeat_consistent h roomId userId g :
  running g !! h = None →
  intervalsConsistent g →
  intervalsConsistent (startHeartbeat h roomId userId g).
Proof.
  intros Hfresh Hg.
  pose proof (stopHeartbeat_consistent roomId g Hg) as [Hrun Hmap].
  pose proof (stopHeartbeat_running_None roomId g h Hfresh) as Hfresh'.
  assert (Hgone : heartbeatIntervals (stopHeartbeat roomId g) !! roomId = None).
  { simpl. apply lookup_delete_eq. }
  unfold startHeartbeat. split; simpl.
  - intros h' r u Hh'. apply lookup_insert_Some in Hh' as [[<- Heq] | [Hne Hh']].
    + injection Heq as <- <-. apply lookup_insert_eq.
    + pose proof (Hrun _ _ _ Hh') as Hr.
      rewrite lookup_insert_ne; [exact Hr |].
      intros <-. cbn in Hr. by rewrite lookup_delete_eq in Hr.
  - intros r h' Hr. apply lookup_insert_Some in Hr as [[<- <-] | [Hne Hr]].
    + exists userId. apply lookup_insert_eq.
    + destruct (Hmap r h' Hr) as [u Hu]. exists u.
      rewrite lookup_insert_ne; [exact Hu |].
      intros <-. by rewrite Hfresh' in Hu.
Qed.

Lemma unsubscribe_intervals roomId g :
  heartbeatIntervals (unsubscribe roomId g)
  = heartbeatIntervals (stopHeartbeat roomId g) ∧
  running (unsubscribe roomId g) = running (stopHeartbeat roomId g).
Proof.
  unfold unsubscribe.
  by destruct (subscriptions (stopHeartbeat roomId g) !! roomId).
Qed.

Lemma elem_of_handlesOf (m : gmap string positive) h :
  h ∈ handlesOf m ↔ ∃ roomId, m !! roomId = Some h.
Proof.
  unfold handlesOf. rewrite elem_of_map_to_set. split.
  - intros (r & h' & Hr & <-). by exists r.
  - intros [r Hr]. by exists r, h.
Qed.

Lemma cleanup_running_empty g :
  intervalsConsistent g → running (cleanup g) = ∅.
Proof.
  intros [Hrun _]. unfold cleanup; simpl. apply map_empty. intros h.
  apply map_lookup_filter_None. right. intros [r u] Hh Hnot. simpl in Hnot.
  apply Hnot, elem_of_handlesOf. exists r. by eapply Hrun.
Qed.

Lemma applyOp_consistent g op :
  match op with
  | OpStartHeartbeat h _ _ => running g !! h = None
  | _ => True
  end →
  intervalsConsistent g → intervalsConsistent (applyOp g op).
Proof.
  intros Hfresh Hg. destruct op as [ho hl r | r | h r u | r |]; simpl.
  - destruct Hg as [Hrun Hmap]. unfold subscribe, ensureServerTimeOffsetListener.
    destruct (serverOffsetUnsub g); by split.
  - destruct (unsubscribe_intervals r g) as [Hhb Hrunning].
    pose proof (stopHeartbeat_consistent r g Hg) as [Hrun Hmap].
    split; rewrite Hhb, Hrunning; assumption.
  - by apply startHeartbeat_consistent.
  - by apply stopHeartbeat_consistent.
  - split.
    + intros h r u. by rewrite (cleanup_running_empty g Hg), lookup_empty.
    + intros r h. simpl. by rewrite lookup_empty.
Qed.

(** X20: whatever sequence of [subscribe], [unsubscribe], [startHeartbeat],
    [stopHeartbeat] and [cleanup] a client goes through, the intervals that
    run are exactly those stored in [heartbeatIntervals], each under the
    room it publishes for; so no room ever has two heartbeat intervals
    running, and no interval runs for a room that has none stored. *)
Theorem heartbeat_intervals_never_leak (ops : list RegistryOp) :
  freshHandles ops emptyRegistry →
  intervalsConsistent (foldl applyOp emptyRegistry ops) ∧
  ∀ h1 h2 roomId u1 u2,
    running (foldl applyOp emptyRegistry ops) !! h1 = Some (roomId, u1) →
    running (foldl applyOp emptyRegistry ops) !! h2 = Some (roomId, u2) →
    h1 = h2 ∧ u1 = u2.
Proof.
  intros Hfresh.
  assert (Hinv : ∀ ops g, freshHandles ops g → intervalsConsistent g →
                          intervalsConsistent (foldl applyOp g ops)).
  { clear. intros ops. induction ops as [| op rest IH]; intros g Hf Hg;
      [exact Hg |].
    destruct Hf as [Hop Hrest]. simpl. apply IH; [exact Hrest |].
    by apply applyOp_consistent. }
  assert (Hfinal : intervalsConsistent (foldl applyOp emptyRegistry ops)).
  { apply Hinv; [exact Hfresh |]. split.
    - intros h r u. simpl. by rewrite lookup_empty.
    - intros r h. simpl. by rewrite lookup_empty. }
  split; [exact Hfinal |].
  intros h1 h2 r u1 u2 H1 H2. destruct Hfinal as [Hrun _].
  pose proof (Hrun _ _ _ H1) as Hr1. pose proof (Hrun _ _ _ H2) as Hr2.
  rewrite Hr1 in Hr2. injection Hr2 as <-.
  rewrite H1 in H2. by injection H2 as <-.
Qed.

Lemma heartbeat_intervals_never_leak_witness :
  intervalsConsistent
    (foldl applyOp emptyRegistry
       [OpStartHeartbeat 1 "r1" "alice";
        OpStartHeartbeat 2 "r1" "alice";
        OpStartHeartbeat 3 "r2" "alice";
        OpStopHeartbeat "r2"]).
Proof.
  apply (heartbeat_intervals_never_leak
           [OpStartHeartbeat 1 "r1" "alice";
            OpStartHeartbeat 2 "r1" "alice";
            OpStartHeartbeat 3 "r2" "alice";
            OpStopHeartbeat "r2"]).
  vm_compute. done.
Defined.

(** X21: [startHeartbeat] leaves exactly one interval running for the room,
    the new one, publishing for the given user; the interval stored for the
    room before is cleared and its firings no longer write.
    [stopHeartbeat] leaves none running for the room, silences the stored
    interval, and is idempotent. *)
Theorem heartbeat_start_replaces_stop_silences (h : positive)
    (roomId userId : string) (g : Registry) :
  running g !! h = None →
  intervalsConsistent g →
  running (startHeartbeat h roomId userId g) !! h = Some (roomId, userId) ∧
  (∀ h' u', running (startHeartbeat h roomId userId g) !! h'
            = Some (roomId, u') → h' = h ∧ u' = userId) ∧
  (∀ old e ps d, heartbeatIntervals g !! roomId = Some old →
     intervalFires e old ps (startHeartbeat h roomId userId g) d = d ∧
     intervalFires e old ps (stopHeartbeat roomId g) d = d) ∧
  (∀ h' u', running (stopHeartbeat roomId g) !! h' ≠ Some (roomId, u')) ∧
  stopHeartbeat roomId (stopHeartbeat roomId g) = stopHeartbeat roomId g.
Proof.
  intros Hfresh Hg.
  pose proof (startHeartbeat_consistent h roomId userId g Hfresh Hg)
    as [Hrun' _].
  pose proof (stopHeartbeat_consistent roomId g Hg) as [Hrun'' _].
  assert (Hnew : running (startHeartbeat h roomId userId g) !! h
                 = Some (roomId, userId)).
  { simpl. apply lookup_insert_eq. }
  assert (Hstopped : ∀ old, heartbeatIntervals g !! roomId = Some old →
                            running (stopHeartbeat roomId g) !! old = None).
  { intros old Hold. simpl. rewrite Hold. apply lookup_delete_eq. }
  split; [exact Hnew |]. split; [| split; [| split]].
  - intros h' u' Hh'. pose proof (Hrun' _ _ _ Hh') as Hstored.
    simpl in Hstored. rewrite lookup_insert_eq in Hstored.
    injection Hstored as <-. rewrite Hnew in Hh'. by injection Hh' as <-.
  - intros old e ps d Hold. pose proof (Hstopped old Hold) as Hnone.
    split; unfold intervalFires.
    + assert (Hne : h ≠ old).
      { intros <-. destruct Hg as [_ Hmap].
        destruct (Hmap _ _ Hold) as [u Hu]. by rewrite Hfresh in Hu. }
      assert (Hgone : running (startHeartbeat h roomId userId g) !! old
                      = None).
      { unfold startHeartbeat. simpl running.
        rewrite lookup_insert_ne by done. exact Hnone. }
      by rewrite Hgone.
    + by rewrite Hnone.
  - intros h' u' Hh'. pose proof (Hrun'' _ _ _ Hh') as Hstored.
    simpl in Hstored. by rewrite lookup_delete_eq in Hstored.
  - unfold stopHeartbeat; simpl.
    rewrite lookup_delete_eq, delete_delete_eq. reflexivity.
Qed.

Lemma heartbeat_start_replaces_stop_silences_witness :
  intervalFires (Sample.env 1700000008000 "unused") 1 (8%Q, true)
    (startHeartbeat 2 "r1" "alice"
       (startHeartbeat 1 "r1" "alice" emptyRegistry)) Sample.roomDb
  = Sample.roomDb.
Proof.
  assert (Hg : intervalsConsistent
                 (startHeartbeat 1 "r1" "alice" emptyRegistry)).
  { apply startHeartbeat_consistent; [reflexivity |]. split.
    - intros h r u. simpl. by rewrite lookup_empty.
    - intros r h. simpl. by rewrite lookup_empty. }
  destruct (heartbeat_start_replaces_stop_silences 2 "r1" "alice"
              (startHeartbeat 1 "r1" "alice" emptyRegistry) eq_refl Hg)
    as (_ & _ & Hold & _).
  apply (Hold 1%positive). reflexivity.
Defined.

(** X22: [unsubscribe] detaches the listener stored for the room, forgets
    it, and stops the room's heartbeat, leaving the subscriptions of other
    rooms alone; a second call changes nothing. *)
Theorem unsubscribe_effects (roomId : string) (g : Registry) :
  subscriptions (unsubscribe roomId g) !! roomId = None ∧
  heartbeatIntervals (unsubscribe roomId g) !! roomId = None ∧
  (∀ h, subscriptions g !! roomId = Some h →
        h ∉ attached (unsubscribe roomId g)) ∧
  (∀ other, other ≠ roomId →
            subscriptions (unsubscribe roomId g) !! other
            = subscriptions g !! other) ∧
  (∀ old e ps d, heartbeatIntervals g !! roomId = Some old →
     intervalFires e old ps (unsubscribe roomId g) d = d) ∧
  unsubscribe roomId (unsubscribe roomId g) = unsubscribe roomId g.
Proof.
  assert (Hsub : subscriptions (unsubscribe roomId g) !! roomId = None).
  { unfold unsubscribe. simpl.
    destruct (subscriptions g !! roomId) eqn:E; simpl; [| exact E].
    apply lookup_delete_eq. }
  assert (Hhb : heartbeatIntervals (unsubscribe roomId g) !! roomId = None).
  { destruct (unsubscribe_intervals roomId g) as [-> _]. simpl.
    apply lookup_delete_eq. }
  split; [exact Hsub |]. split; [exact Hhb |].
  split; [| split; [| split]].
  - intros h Hh. unfold unsubscribe. simpl. rewrite Hh. simpl.
    rewrite elem_of_difference, elem_of_singleton. by intros [_ Hne].
  - intros other Hne. unfold unsubscribe. simpl.
    destruct (subscriptions g !! roomId); simpl; [| reflexivity].
    by rewrite lookup_delete_ne.
  - intros old e ps d Hold. unfold intervalFires.
    destruct (unsubscribe_intervals roomId g) as [_ ->]. simpl.
    by rewrite Hold, lookup_delete_eq.
  - unfold unsubscribe at 1.
    assert (Hstop : stopHeartbeat roomId (unsubscribe roomId g)
                    = unsubscribe roomId g).
    { unfold stopHeartbeat. rewrite Hhb.
      rewrite (delete_id _ _ Hhb). by destruct (unsubscribe roomId g). }
    rewrite Hstop. by rewrite Hsub.
Qed.

(** X23: [cleanup] empties both maps, detaches every stored listener and
    the clock-offset listener, leaves no interval running, and resets the
    clock offset to 0 and the last operation id to null, after which no
    record is recognised as an echo any more; the seek throttle is not
    touched. *)
Theorem cleanup_resets (g : Registry) :
  intervalsConsistent g →
  subscriptions (cleanup g) = ∅ ∧
  heartbeatIntervals (cleanup g) = ∅ ∧
  serverOffsetUnsub (cleanup g) = None ∧
  running (cleanup g) = ∅ ∧
  (∀ roomId h, subscriptions g !! roomId = Some h →
               h ∉ attached (cleanup g)) ∧
  (∀ h, serverOffsetUnsub g = Some h → h ∉ attached (cleanup g)) ∧
  (∀ now, nowServerMs (core (cleanup g)) now == inject_Z now)%Q ∧
  (∀ r, isLocalOf (core (cleanup g)) r = false) ∧
  seekThrottle (core (cleanup g)) = seekThrottle (core g).
Proof.
  intros Hg.
  split; [reflexivity |]. split; [reflexivity |]. split; [reflexivity |].
  split; [by apply cleanup_running_empty |].
  split; [| split; [| split; [| split]]].
  - intros r h Hh. simpl. rewrite !elem_of_difference.
    intros [[_ Hnot] _]. apply Hnot, elem_of_handlesOf. by exists r.
  - intros h Hh. simpl. rewrite Hh, elem_of_difference, elem_of_singleton.
    by intros [_ Hne].
  - intros now. unfold nowServerMs. simpl. ring.
  - intros r. unfold isLocalOf. simpl. by destruct (field r "opId").
  - reflexivity.
Qed.

Lemma cleanup_resets_witness :
  running
    (cleanup (startHeartbeat 1 "r1" "alice"
                (subscribe 7 8 "r1" emptyRegistry).2)) = ∅.
Proof.
  apply (cleanup_resets (startHeartbeat 1 "r1" "alice"
                           (subscribe 7 8 "r1" emptyRegistry).2)).
  apply startHeartbeat_consistent; [reflexivity |]. split.
  - intros h r u. simpl. by rewrite lookup_empty.
  - intros r h. simpl. by rewrite lookup_empty.
Defined.

Lemma subscribe_offset_once hOffset hListener roomId g :
  is_Some (serverOffsetUnsub g) →
  serverOffsetUnsub (subscribe hOffset hListener roomId g).2
  = serverOffsetUnsub g ∧
  attached (subscribe hOffset hListener roomId g).2
  = {[hListener]} ∪ attached g.
Proof.
  intros [h Hh]. unfold subscribe, ensureServerTimeOffsetListener.
  by rewrite Hh.
Qed.

(** X24: [subscribe] stores one detaching function per room and attaches
    the clock-offset listener only once.  After two calls for the same
    room, [unsubscribe] detaches the listener of the second call only: the
    first stays attached until the function that [subscribe] returned for
    it is called. *)
Theorem resubscribe_keeps_first_listener (hOffset1 hListener1 hOffset2
    hListener2 : positive) (roomId : string) (g : Registry) :
  hListener1 ≠ hListener2 →
  let first := subscribe hOffset1 hListener1 roomId g in
  let second := subscribe hOffset2 hListener2 roomId first.2 in
  first.1 = hListener1 ∧
  serverOffsetUnsub second.2 = serverOffsetUnsub first.2 ∧
  is_Some (serverOffsetUnsub first.2) ∧
  subscriptions second.2 !! roomId = Some hListener2 ∧
  (hListener2 ∉ attached (unsubscribe roomId second.2)) ∧
  hListener1 ∈ attached (unsubscribe roomId second.2) ∧
  (hListener1 ∉ attached (detach first.1 (unsubscribe roomId second.2))).
Proof.
  intros Hne first second.
  assert (Hoff : is_Some (serverOffsetUnsub first.2)).
  { subst first. unfold subscribe, ensureServerTimeOffsetListener. simpl.
    destruct (serverOffsetUnsub g) eqn:E; simpl; [by rewrite E | done]. }
  destruct (subscribe_offset_once hOffset2 hListener2 roomId first.2 Hoff)
    as [Hsame Hatt].
  assert (Hstored : subscriptions second.2 !! roomId = Some hListener2).
  { subst second. simpl. apply lookup_insert_eq. }
  assert (Hun : attached (unsubscribe roomId second.2)
                = attached second.2 ∖ {[hListener2]}).
  { unfold unsubscribe.
    change (subscriptions (stopHeartbeat roomId second.2))
      with (subscriptions second.2).
    by rewrite Hstored. }
  assert (Hin : hListener1 ∈ attached first.2).
  { subst first. simpl. apply elem_of_union. left.
    by apply elem_of_singleton. }
  split; [reflexivity |]. split; [exact Hsame |]. split; [exact Hoff |].
  split; [exact Hstored |]. split; [| split].
  - rewrite Hun, elem_of_difference, elem_of_singleton. by intros [_ Hn].
  - subst second. rewrite Hun, Hatt, elem_of_difference, elem_of_union,
      elem_of_singleton. split; [by right | done].
  - simpl. rewrite elem_of_difference, elem_of_singleton. by intros [_ Hn].
Qed.

Lemma resubscribe_keeps_first_listener_witness :
  8%positive ∈ attached
    (unsubscribe "r1"
       (subscribe 7 9 "r1" (subscribe 7 8 "r1" emptyRegistry).2).2).
Proof.
  apply (resubscribe_keeps_first_listener 7 8 7 9 "r1" emptyRegistry).
  discriminate.
Defined.

(** ** The provider's pause and resume actions *)

Import PlayerActions.

Lemma transportAction_syncing playing e c player st s d :
  isSyncing st = true →
  transportAction playing e c player (st, s, d) = (st, s, d).
Proof.
  intros H. destruct playing; simpl; unfold resumeSong, pauseSong;
    by rewrite H.
Qed.

Lemma transportAction_in_room playing e c player st s d roomId userId :
  isSyncing st = false →
  roomIds c = Some (roomId, userId) →
  transportAction playing e c player (st, s, d)
  = (setIsPlaying playing st,
     (exec e roomId userId
        (if playing then CResume (reportedPosition player st)
         else CPause (reportedPosition player st)) (s, d)).1,
     (exec e roomId userId
        (if playing then CResume (reportedPosition player st)
         else CPause (reportedPosition player st)) (s, d)).2).
Proof.
  intros Hsync Hids.
  destruct playing; simpl; unfold resumeSong, pauseSong;
    rewrite Hsync, Hids.
  - by destruct (resume _ _ _ _ _ _) as [[? ?] ?].
  - by destruct (pause _ _ _ _ _ _) as [[? ?] ?].
Qed.


Lemma remote_delivery_sets_syncing player state pos st :
  ¬ (versionOf state < lastAppliedVersion st)%Q →
  syncCallback player (State state pos false) st
  = remoteApply player state pos (setLastAppliedVersion (versionOf state) st).
Proof.
  intros H. unfold syncCallback.
  by destruct (Qlt_le_dec _ _).
Qed.

(** X25: a pause or resume the user asks for between the moment a remote
    update was applied and the moment the 400 ms timer armed by it fires is
    swallowed whole: the local flag is not changed and nothing is written.
    Once the timer has fired, the same action sets the local flag again. *)
Theorem transport_swallowed_while_syncing (playing : bool) (e : Env)
    (c : RoomContext) (player player' : PlayerRef)
    (state : gmap string JsVal) (pos : Q) (st : Provider) (s : Service)
    (d : Database) :
  ¬ (versionOf state < lastAppliedVersion st)%Q →
  let st1 := syncCallback player (State state pos false) st in
  transportAction playing e c player' (st1, s, d) = (st1, s, d) ∧
  isPlaying (transportAction playing e c player' (syncingTimeout st1, s, d)).1.1
  = JBool playing.
Proof.
  intros Hfresh st1. split.
  - apply transportAction_syncing. subst st1.
    rewrite remote_delivery_sets_syncing by done.
    by destruct (remoteApply_common player state pos
                   (setLastAppliedVersion (versionOf state) st))
      as (_ & -> & _).
  - destruct playing; simpl; unfold resumeSong, pauseSong; simpl.
    + destruct (roomIds c) as [[roomId userId] |]; [| reflexivity].
      by destruct (resume _ _ _ _ _ _) as [[? ?] ?].
    + destruct (roomIds c) as [[roomId userId] |]; [| reflexivity].
      by destruct (pause _ _ _ _ _ _) as [[? ?] ?].
Qed.

Lemma transport_swallowed_while_syncing_witness :
  transportAction false (Sample.env 1700000003000 "pp01aa")
    {| activeRoomId := Some "r1"; activeUserId := Some "bob" |}
    (Player (Some 3%Q))
    (syncCallback NoPlayer (State Sample.roomRecord 12 false) Sample.initial,
     newService, Sample.roomDb)
  = (syncCallback NoPlayer (State Sample.roomRecord 12 false) Sample.initial,
     newService, Sample.roomDb).
Proof.
  assert (H : ¬ (versionOf Sample.roomRecord
                 < lastAppliedVersion Sample.initial)%Q).
  { vm_compute. discriminate. }
  exact (proj1 (transport_swallowed_while_syncing false (Sample.env 1700000003000 "pp01aa")
                  {| activeRoomId := Some "r1"; activeUserId := Some "bob" |}
                  NoPlayer (Player (Some 3%Q)) Sample.roomRecord 12
                  Sample.initial newService Sample.roomDb H)).
Defined.



(** X27: outside a room, or in a room whose playback record does not exist,
    a pause or resume only flips the local flag: the database is left as it
    was and the service keeps its last operation id, so no other client
    ever learns of it. *)
Theorem transport_without_record_is_local (playing : bool) (e : Env)
    (c : RoomContext) (player : PlayerRef) (st : Provider) (s : Service)
    (d : Database) :
  isSyncing st = false →
  (∀ roomId userId, roomIds c = Some (roomId, userId) →
                    get (playbackRef roomId) d = None) →
  transportAction playing e c player (st, s, d)
  = (setIsPlaying playing st, s, d).
Proof.
  intros Hsync Hnone.
  destruct (roomIds c) as [[roomId userId] |] eqn:Hids.
  - rewrite (transportAction_in_room _ _ _ _ _ _ _ roomId userId Hsync Hids).
    specialize (Hnone roomId userId eq_refl).
    destruct playing; simpl; unfold resume, pause; by rewrite Hnone.
  - destruct playing; simpl; unfold resumeSong, pauseSong;
      by rewrite Hsync, Hids.
Qed.

Lemma transport_without_record_is_local_witness :
  transportAction true (Sample.env 1700000003000 "pp01aa")
    {| activeRoomId := Some "r1"; activeUserId := None |}
    NoPlayer (Sample.initial, newService, Sample.roomDb)
  = (setIsPlaying true Sample.initial, newService, Sample.roomDb).
Proof.
  apply transport_without_record_is_local; [reflexivity |].
  intros roomId userId H. vm_compute in H. discriminate H.
Defined.
